(** * URL shortener: shortcode registry and click ledger

    A shallow embedding of [backend/server.js]: the two in-memory tables
    [urls] and [clicks], the helpers [generateShortcode], [isValidShortcode]
    and [getExpiryDate], and the three request handlers
    [POST /shorturls], [GET /shorturls/:shortcode] and
    [GET /shorturls/:shortcode/stats].

    Conventions of the model.
    - A date is its time value: milliseconds since the epoch, a [Z]; a
      [Date] object whose time value is NaN is [InvalidDate]. The host's
      time zone is a parameter ([JsDate.Zone]).
    - Every [new Date()] the code evaluates is an explicit clock reading
      handed to the handler, one argument per occurrence in the source.
    - [Math.random()] is a stream of draws handed to [generateShortcode];
      its loop is cut after a given number of iterations.
    - [validUrl.isUri] belongs to a package outside the repository and
      is a parameter of the handlers, in two parts: its answer on a
      string, and what it does with a value that is not one.
    - The tables are plain JavaScript objects: a [gmap] of own properties,
      read through [getProp], which falls back to [Object.prototype] as
      the member expression [urls[code]] does.
    - An [async] handler runs synchronously up to its first
      [await Log(...)]; this segment is a function on the store returning
      the pending log call and the rest of the handler ([Segment]).
    - A string is its sequence of bytes; a character outside ASCII is
      made of bytes that are not alphanumeric, as the character is not.
    - The counter [clicks] of an entry is a natural number (the code
      keeps it in a double, exact below 2^53). *)

From Stdlib Require Import ZArith QArith Qround String Ascii List Lia.
From stdpp Require Import gmap strings list fin_maps.

(** ** Dates *)

Module JsDate.

Local Open Scope Z_scope.

Inductive t := ValidDate (ms : Z) | InvalidDate.

Definition msPerSecond : Z := 1000.
Definition msPerMinute : Z := 60000.
Definition msPerHour : Z := 3600000.
Definition msPerDay : Z := 86400000.
Definition maxTime : Z := 8640000000000000.

Definition Day (t : Z) : Z := t / msPerDay.
Definition HourFromTime (t : Z) : Z := (t / msPerHour) mod 24.
Definition MinFromTime (t : Z) : Z := (t / msPerMinute) mod 60.
Definition SecFromTime (t : Z) : Z := (t / msPerSecond) mod 60.
Definition msFromTime (t : Z) : Z := t mod msPerSecond.

Definition MakeTime (hour min sec ms : Z) : Z :=
  hour * msPerHour + min * msPerMinute + sec * msPerSecond + ms.
Definition MakeDate (day time : Z) : Z := day * msPerDay + time.

Definition TimeClip (time : Z) : t :=
  if Z.abs time <=? maxTime then ValidDate time else InvalidDate.

(** The host's time zone: the offset of local time from UTC, in
    milliseconds, at a UTC instant ([LocalTZA(t, true)]) and at a local
    time ([LocalTZA(t, false)]). Where clocks are set back, a local time
    occurs twice, and is read as the earlier instant. *)
Record Zone := mkZone { tzaOfUtc : Z -> Z; tzaOfLocal : Z -> Z }.

Definition LocalTime (z : Zone) (t : Z) : Z := t + tzaOfUtc z t.
Definition UTC (z : Zone) (t : Z) : Z := t - tzaOfLocal z t.

(** [d.getMinutes()] and [d.setMinutes(min)] on a valid date [d]. *)
Definition getMinutes (z : Zone) (d : Z) : Z := MinFromTime (LocalTime z d).
Definition setMinutes (z : Zone) (d min : Z) : t :=
  let l := LocalTime z d in
  TimeClip (UTC z (MakeDate (Day l)
              (MakeTime (HourFromTime l) min (SecFromTime l) (msFromTime l)))).

(** The offset in force at the instant [t] is also the one by which the
    local time [d] milliseconds later is read back: no change of offset
    comes in between. *)
Definition steady (z : Zone) (t d : Z) : Prop :=
  tzaOfLocal z (t + tzaOfUtc z t + d) = tzaOfUtc z t.

(** [a < b] on two dates: the comparison of their time values, false
    when one of them is NaN. *)
Definition lt (a b : t) : bool :=
  match a, b with
  | ValidDate x, ValidDate y => x <? y
  | _, _ => false
  end.

End JsDate.

Abbreviation ValidDate := JsDate.ValidDate.
Abbreviation InvalidDate := JsDate.InvalidDate.

(** ** Values of a JSON request body, as far as the handlers inspect them *)

(** The property [validity]: absent, a number (the rational a double
    is), or anything else. *)
Inductive JsValue :=
| JsUndefined                 (* the property is absent *)
| JsNumber (q : Q)            (* a finite number *)
| JsOther.                    (* null, a boolean, a string, an array, an object,
                                 a numeral that overflows to Infinity *)

(** [Number.isInteger(v)] *)
Definition isInteger (v : JsValue) : bool :=
  match v with
  | JsNumber q => Qeq_bool (inject_Z (Qfloor q)) q
  | _ => false
  end.

(** [v < 1] where [v] is a number *)
Definition lessThanOne (v : JsValue) : bool :=
  match v with
  | JsNumber q => negb (Qle_bool 1 q)
  | _ => false
  end.

(** The integer a number that passed [Number.isInteger] is. *)
Definition numberValue (v : JsValue) : Z :=
  match v with
  | JsNumber q => Qfloor q
  | _ => 0%Z
  end.

(** Truthiness of a string-valued or absent property: [undefined] and the
    empty string are falsy. *)
Definition truthy (v : option string) : bool :=
  match v with
  | Some s => negb (String.eqb s "")
  | None => false
  end.

Definition stringOf (v : option string) : string := default "" v.

(** The property [url]: whatever JSON value the client posted under
    that name. [express.json()] hands the handler the parsed body as it
    is, and the handler destructures [url] without looking at its type.
    (A numeral that overflows to Infinity is left out: it is truthy, as
    every number but 0 is.) *)
Inductive UrlValue :=
| UrlUndefined                (* the property is absent *)
| UrlString (s : string)
| UrlNull
| UrlBoolean (b : bool)
| UrlNumber (q : Q)           (* the rational the parsed double is *)
| UrlArray                    (* contents not modelled *)
| UrlObject.

(** Whether [!url] is false: undefined, null, false, 0 and the empty
    string are falsy, every array and object is truthy. *)
Definition urlTruthy (v : UrlValue) : bool :=
  match v with
  | UrlUndefined | UrlNull => false
  | UrlString s => truthy (Some s)
  | UrlBoolean b => b
  | UrlNumber q => negb (Qeq_bool q 0)
  | UrlArray | UrlObject => true
  end.

(** The url when it is a string. *)
Definition textOf (v : UrlValue) : option string :=
  match v with
  | UrlString s => Some s
  | _ => None
  end.

(** ** Plain objects used as tables *)

(** The property names every object inherits from [Object.prototype] in
    Node; all of them hold functions or objects, hence truthy values,
    and none of these values has a [push] or a [map]. *)
Definition objectPrototypeKeys : list string :=
  [ "constructor"; "__defineGetter__"; "__defineSetter__"; "hasOwnProperty";
    "__lookupGetter__"; "__lookupSetter__"; "isPrototypeOf";
    "propertyIsEnumerable"; "toString"; "valueOf"; "__proto__";
    "toLocaleString" ]%string.

Inductive Property (A : Type) :=
| Own (a : A)      (* an own property, written by the handlers *)
| Inherited        (* a built-in found on the prototype chain *)
| Missing.         (* undefined *)
Arguments Own {A} a.
Arguments Inherited {A}.
Arguments Missing {A}.

(** [o[k]] *)
Definition getProp {A : Type} (o : gmap string A) (k : string) : Property A :=
  match o !! k with
  | Some a => Own a
  | None => if bool_decide (k ∈ objectPrototypeKeys) then Inherited else Missing
  end.

(** Truthiness of [o[k]] when own properties hold objects or arrays. *)
Definition present {A : Type} (o : gmap string A) (k : string) : bool :=
  match getProp o k with
  | Missing => false
  | _ => true
  end.

(** ** The store: the globals [urls] and [clicks] *)

Record UrlEntry := mkEntry {
  url : string;
  createdAt : Z;
  expiry : JsDate.t;
  clicks : nat
}.

Record Click := mkClick {
  timestamp : Z;              (* the instant [toISOString] prints *)
  referrer : option string;   (* [None] is null *)
  ip : string
}.

Record Store := mkStore {
  st_urls : gmap string UrlEntry;        (* const urls = {} *)
  st_clicks : gmap string (list Click)   (* const clicks = {} *)
}.

Definition emptyStore : Store := mkStore ∅ ∅.

(** ** Helpers of server.js *)

Definition chars : string :=
  "abcdefghijklmnopqrstuvwxyzABCDEFGHIJKLMNOPQRSTUVWXYZ0123456789".

(** [chars[Math.floor(Math.random() * chars.length)]]: [Math.random()] lies
    in [0, 1), so the index lies below [chars.length]; a draw [r] stands
    for the index [r mod chars.length]. *)
Definition pick (r : nat) : ascii :=
  nth (r mod String.length chars) (list_ascii_of_string chars) "a"%char.

(** [Array(6).fill(0).map(() => ...).join('')], reading the draws
    [rnd pos], ..., [rnd (pos + 5)]. *)
Definition drawCode (rnd : nat -> nat) (pos : nat) : string :=
  string_of_list_ascii (map (fun i => pick (rnd (pos + i))) (seq 0 6)).

(** The candidate drawn by the [k]-th iteration of the loop. *)
Definition candidate (rnd : nat -> nat) (k : nat) : string := drawCode rnd (6 * k).

(** [generateShortcode]: the do-while loop from its [k]-th iteration on,
    cut after [fuel] iterations. *)
Fixpoint generateFrom (urls : gmap string UrlEntry) (rnd : nat -> nat)
    (k fuel : nat) : option string :=
  match fuel with
  | O => None
  | S fuel' =>
      let code := candidate rnd k in
      if present urls code then generateFrom urls rnd (S k) fuel' else Some code
  end.

Definition generateShortcode (urls : gmap string UrlEntry) (rnd : nat -> nat)
    (fuel : nat) : option string :=
  generateFrom urls rnd 0 fuel.

Definition isAlnum (c : ascii) : bool :=
  let n := nat_of_ascii c in
  ((97 <=? n) && (n <=? 122)) || ((65 <=? n) && (n <=? 90)) || ((48 <=? n) && (n <=? 57)).

Definition isDigit (c : ascii) : bool :=
  let n := nat_of_ascii c in (48 <=? n) && (n <=? 57).

(** [/^[a-zA-Z0-9]{4,}$/.test(code)] *)
Definition isValidShortcode (code : string) : bool :=
  forallb isAlnum (list_ascii_of_string code) && (4 <=? String.length code).

(** [getExpiryDate(minutes)], where [now] is the value of its [new Date()]. *)
Definition getExpiryDate (zone : JsDate.Zone) (now minutes : Z) : JsDate.t :=
  JsDate.setMinutes zone now (JsDate.getMinutes zone now + minutes).

(** ** Responses and suspended handlers *)

Inductive JsError := TypeError | RangeError.

Record LogCall := mkLog { level : string; message : string }.

Inductive Body :=
| ErrorBody (error : string)
| CreatedBody (shortLink : string) (expiryIso : Z)
| StatsBody (shortcode : string)
            (entry : option UrlEntry)   (* [None]: the fields of a built-in, all undefined *)
            (clickDetails : list Click).

Inductive Response :=
| Json (status : nat) (body : Body)
| Redirect (location : string)
| Throws (e : JsError).         (* the handler's promise rejects *)

(** What the synchronous first segment of a handler leaves behind. *)
Inductive Segment :=
| AwaitLog (call : LogCall) (resume : Store -> Response)
| Reject (e : JsError).

(** The response once the handler is resumed on the store [st]. *)
Definition respond (seg : Segment) (st : Store) : Response :=
  match seg with
  | AwaitLog _ resume => resume st
  | Reject e => Throws e
  end.

Definition HOSTNAME : string := "http://localhost:4000".

(** The failure signals of the interface, as the handlers send them. *)
Definition InvalidUrl : Response := Json 400 (ErrorBody "Invalid or missing URL").
Definition InvalidShortcode : Response :=
  Json 400 (ErrorBody "Invalid custom shortcode. Must be alphanumeric and at least 4 characters.").
Definition ShortcodeConflict : Response := Json 409 (ErrorBody "Shortcode already exists").
Definition InvalidValidity : Response :=
  Json 400 (ErrorBody "Validity must be a positive integer (minutes)").
Definition NotFound : Response := Json 404 (ErrorBody "Shortcode not found").
Definition Expired : Response := Json 410 (ErrorBody "Short URL has expired").
Definition CreatedAs (code : string) (expiryMs : Z) : Response :=
  Json 201 (CreatedBody (HOSTNAME +:+ "/shorturls/" +:+ code) expiryMs).

Definition log (lvl msg : string) (r : Response) : Segment :=
  AwaitLog (mkLog lvl msg) (fun _ => r).

(** ** The handlers *)

(** What the creation handler destructures from [req.body]. [url] is
    any JSON value. [shortcode] is a string when present, as the front
    end sends it (its payload is [{ url: string; shortcode?: string;
    validity?: number }]); [None] is undefined. *)
Record CreateBody := mkBody {
  b_url : UrlValue;
  b_validity : JsValue;
  b_shortcode : option string
}.

(** What a run of [POST /shorturls] reads from its environment. *)
Record CreateWorld := mkWorld {
  random : nat -> nat;     (* the draws of Math.random() *)
  expiryClock : Z;         (* new Date() inside getExpiryDate *)
  createdClock : Z         (* new Date() of createdAt *)
}.

Inductive Choice :=
| Early (seg : Segment)       (* the handler returns *)
| Chosen (shortCode : string)
| Looping.                    (* generateShortcode is still looping *)

(** The characters a URI is made of, and those of a scheme. *)
Definition isUriChar (c : ascii) : bool :=
  isAlnum c || existsb (Ascii.eqb c) (list_ascii_of_string ":/?#[]@!$&'()*+,;=.-_~%").

Definition isSchemeChar (c : ascii) : bool :=
  isAlnum c || existsb (Ascii.eqb c) (list_ascii_of_string "+-.").

Fixpoint schemeRest (s : list ascii) : bool :=
  match s with
  | [] => false
  | c :: s' => if Ascii.eqb c ":" then true else isSchemeChar c && schemeRest s'
  end.

(** Modelled from the spec: [validUrl.isUri] comes from the package
    valid-url, which is not part of the repository. The model accepts
    what the specification calls an absolute, well-formed URL: a string
    of URI characters that starts with a scheme (a letter, then letters,
    digits, [+], [-] or [.]) closed by a colon. The handlers below do
    not depend on it: they take [isUri] as a parameter. *)
Definition isUriModel (value : string) : bool :=
  let cs := list_ascii_of_string value in
  forallb isUriChar cs &&
  match cs with
  | c :: rest => isAlnum c && negb (isDigit c) && schemeRest rest
  | [] => false
  end.

(** What [validUrl.isUri] does with a truthy value that is not a
    string. It has no truthy result there: what it returns is put
    together from the parts of [value.match(...)], a method only strings
    have. Before that call it tests the characters of the value
    ([RegExp.prototype.test] converts it to a string) and returns
    undefined when it finds one a URI cannot have. *)
Inductive OnNonString := ReturnsUndefined | RaisesTypeError.

(** What a call of [validUrl.isUri] ends in. *)
Inductive IsUri :=
| Accepted (url : string)     (* a truthy result; [url] is the argument *)
| Refused                     (* undefined *)
| Raised (e : JsError).

(** Modelled on the package valid-url, which is not part of the
    repository: a stand-in for [isUri] on the values that are not
    strings. A falsy value is refused at once. A number and [true]
    print in URI characters (digits, letters, [.], [-], [+]), pass the
    character tests and fail at [value.match]: TypeError. So does the
    empty array, which prints as the empty string; a plain object prints
    as [[object Object]], which has a space, and is refused. The
    contents of arrays and objects are not modelled, and the stand-in
    answers for these two. The handlers below do not depend on it: they
    take this part of [isUri] as a parameter too. *)
Definition isUriOtherModel (v : UrlValue) : OnNonString :=
  match v with
  | UrlNumber _ | UrlBoolean _ | UrlArray =>
      if urlTruthy v then RaisesTypeError else ReturnsUndefined
  | _ => ReturnsUndefined
  end.

Section Handlers.

(** [validUrl.isUri], a function of the package valid-url: whether its
    result on a string is truthy. *)
Variable isUri : string -> bool.

(** [validUrl.isUri] on a truthy value that is not a string. *)
Variable isUriOther : UrlValue -> OnNonString.

(** [validUrl.isUri(url)] *)
Definition isUriOf (v : UrlValue) : IsUri :=
  match v with
  | UrlString s => if isUri s then Accepted s else Refused
  | _ =>
      match isUriOther v with
      | ReturnsUndefined => Refused
      | RaisesTypeError => Raised TypeError
      end
  end.

(** The time zone of the host. *)
Variable zone : JsDate.Zone.

(** Lines 44-57. *)
Definition chooseShortcode (st : Store) (body : CreateBody)
    (rnd : nat -> nat) (fuel : nat) : Choice :=
  if truthy (b_shortcode body) then
    let shortcode := stringOf (b_shortcode body) in
    if negb (isValidShortcode shortcode) then
      Early (log "error" "invalid custom shortcode" InvalidShortcode)
    else if present (st_urls st) shortcode then
      Early (log "warn" "shortcode already exists" ShortcodeConflict)
    else Chosen shortcode
  else
    match generateShortcode (st_urls st) rnd fuel with
    | Some code => Chosen code
    | None => Looping
    end.

(** Lines 58-65. *)
Definition chooseDuration (validity : JsValue) : Segment + Z :=
  match validity with
  | JsUndefined => inr 30%Z
  | _ =>
      if negb (isInteger validity) || lessThanOne validity then
        inl (log "error" "invalid validity minutes" InvalidValidity)
      else inr (numberValue validity)
  end.

(** Lines 44-80: the handler once the url has passed the test of line
    40 as the string [url]. *)
Definition register (st : Store) (url : string) (body : CreateBody)
    (w : CreateWorld) (fuel : nat) : option (Store * Segment) :=
  match chooseShortcode st body (random w) fuel with
  | Looping => None
  | Early seg => Some (st, seg)
  | Chosen shortCode =>
      match chooseDuration (b_validity body) with
      | inl seg => Some (st, seg)
      | inr duration =>
          let expiryDate := getExpiryDate zone (expiryClock w) duration in
          let entry := mkEntry url (createdClock w) expiryDate 0 in
          Some (mkStore (<[shortCode := entry]> (st_urls st))
                        (<[shortCode := []]> (st_clicks st)),
                AwaitLog (mkLog "info" ("shortcode created: " +:+ shortCode))
                  (fun _ =>
                     match expiryDate with
                     | ValidDate ms => CreatedAs shortCode ms
                     | InvalidDate => Throws RangeError   (* toISOString *)
                     end))
      end
  end.

(** [app.post('/shorturls', ...)] up to its first [await]; [None] when
    [generateShortcode] has not returned within [fuel] iterations. The
    test of line 40 is [!url || !validUrl.isUri(url)]: [isUri] is called
    on every truthy url, and when it raises, the handler's promise
    rejects before anything is logged or answered. *)
Definition create (st : Store) (body : CreateBody) (w : CreateWorld)
    (fuel : nat) : option (Store * Segment) :=
  if negb (urlTruthy (b_url body)) then
    Some (st, log "error" "invalid or missing url" InvalidUrl)
  else
    match isUriOf (b_url body) with
    | Raised e => Some (st, Reject e)
    | Refused => Some (st, log "error" "invalid or missing url" InvalidUrl)
    | Accepted url => register st url body w fuel
    end.

(** [entry.expiry < new Date()]; on a built-in, [entry.expiry] is
    undefined and the comparison is false. *)
Definition expired (entry : Property UrlEntry) (now : Z) : bool :=
  match entry with
  | Own e => JsDate.lt (expiry e) (ValidDate now)
  | _ => false
  end.

(** [entry.url]; [res.redirect] prints undefined as a string. *)
Definition urlOf (entry : Property UrlEntry) : string :=
  match entry with
  | Own e => url e
  | _ => "undefined"
  end.

Definition bump (e : UrlEntry) : UrlEntry :=
  mkEntry (url e) (createdAt e) (expiry e) (S (clicks e)).

(** [req.get('referrer') || null] *)
Definition referrerOf (header : option string) : option string :=
  if truthy header then header else None.

(** [app.get('/shorturls/:shortcode', ...)] up to its first [await];
    [nowCheck] and [nowClick] are its two clock readings. *)
Definition resolve (st : Store) (shortcode : string) (header : option string)
    (reqIp : string) (nowCheck nowClick : Z) : Store * Segment :=
  match getProp (st_urls st) shortcode with
  | Missing => (st, log "warn" "shortcode not found" NotFound)
  | entry =>
      if expired entry nowCheck then
        (st, log "fatal" ("expired shortcode: " +:+ shortcode) Expired)
      else
        (* entry.clicks++ : on a built-in it leaves both tables alone *)
        let urls' :=
          match entry with
          | Own e => <[shortcode := bump e]> (st_urls st)
          | _ => st_urls st
          end in
        match getProp (st_clicks st) shortcode with
        | Own events =>
            (mkStore urls'
               (<[shortcode := events ++ [mkClick nowClick (referrerOf header) reqIp]]>
                  (st_clicks st)),
             log "info" ("redirect for shortcode: " +:+ shortcode)
                 (Redirect (urlOf entry)))
        | _ => (mkStore urls' (st_clicks st), Reject TypeError)   (* no push *)
        end
  end.

(** [app.get('/shorturls/:shortcode/stats', ...)] up to its [await].
    [entry] and [allClicks] are references: the response built after
    the [await] reads the objects as they are then. *)
Definition stats (st : Store) (shortcode : string) : Store * Segment :=
  match getProp (st_urls st) shortcode with
  | Missing => (st, log "error" "analytics for unknown shortcode" NotFound)
  | entry =>
      (st,
       AwaitLog (mkLog "info" ("serving analytics for " +:+ shortcode))
         (fun later =>
            let entryNow :=
              match entry with
              | Own e => Some (default e (st_urls later !! shortcode))
              | _ => None
              end in
            match getProp (st_clicks st) shortcode with
            | Own events =>
                Json 200 (StatsBody shortcode entryNow
                            (default events (st_clicks later !! shortcode)))
            | Missing => Json 200 (StatsBody shortcode entryNow [])
            | Inherited => Throws TypeError     (* allClicks.map *)
            end))
  end.

(** ** Requests and the event loop *)

(** A request, with what its handler will read from the environment;
    [fuel] bounds the iterations of [generateShortcode]. *)
Inductive Request :=
| Create (body : CreateBody) (w : CreateWorld) (fuel : nat)
| Resolve (shortcode : string) (header : option string) (reqIp : string)
          (nowCheck nowClick : Z)
| Stats (shortcode : string).

(** The first segment of the handler the router selects. *)
Definition handle (st : Store) (r : Request) : option (Store * Segment) :=
  match r with
  | Create body w fuel => create st body w fuel
  | Resolve shortcode header reqIp nowCheck nowClick =>
      Some (resolve st shortcode header reqIp nowCheck nowClick)
  | Stats shortcode => Some (stats st shortcode)
  end.

(** A request served with nothing else in flight: the handler is
    resumed on the store its first segment left. *)
Definition serve (st : Store) (r : Request) : option (Store * Response) :=
  match handle st r with
  | Some (st', seg) => Some (st', respond seg st')
  | None => None
  end.

(** The stores the server can be in between two segments. *)
Inductive reachable : Store -> Prop :=
| reachable_start : reachable emptyStore
| reachable_handle st r st' seg :
    reachable st -> handle st r = Some (st', seg) -> reachable st'.

(** [sc] called once per element of [calls], nothing in between. *)
Record ResolveCall := mkCall {
  c_header : option string;
  c_ip : string;
  c_nowCheck : Z;
  c_nowClick : Z
}.

Definition clickOf (c : ResolveCall) : Click :=
  mkClick (c_nowClick c) (referrerOf (c_header c)) (c_ip c).

Fixpoint resolveAll (st : Store) (sc : string) (calls : list ResolveCall)
    : Store * list Response :=
  match calls with
  | [] => (st, [])
  | c :: rest =>
      let '(st1, seg) :=
        resolve st sc (c_header c) (c_ip c) (c_nowCheck c) (c_nowClick c) in
      let '(st2, rs) := resolveAll st1 sc rest in
      (st2, respond seg st1 :: rs)
  end.

(** Requests served one after the other, with their responses. *)
Fixpoint serveAll (st : Store) (reqs : list Request)
    : option (Store * list Response) :=
  match reqs with
  | [] => Some (st, [])
  | r :: rest =>
      match serve st r with
      | Some (st1, a) =>
          match serveAll st1 rest with
          | Some (st2, rs) => Some (st2, a :: rs)
          | None => None
          end
      | None => None
      end
  end.

(** The click events of the redirects of [sc] that were served, in the
    order of the requests. *)
Fixpoint clicksServed (sc : string) (reqs : list Request) (rs : list Response)
    : list Click :=
  match reqs, rs with
  | Resolve sc' header reqIp _ nowClick :: reqs', Redirect _ :: rs' =>
      (if String.eqb sc' sc then [mkClick nowClick (referrerOf header) reqIp] else [])
      ++ clicksServed sc reqs' rs'
  | _ :: reqs', _ :: rs' => clicksServed sc reqs' rs'
  | _, _ => []
  end.

(** Requests in flight. Node runs one segment at a time: a queued
    request runs up to its first [await]; a suspended one is resumed
    when its log call settles, and sends its response. *)
Inductive Task :=
| Queued (r : Request)
| Suspended (seg : Segment)
| Answered (resp : Response).

Record Server := mkServer { store : Store; tasks : list Task }.

(** The event loop runs the next segment of task [i]. *)
Definition advance (sv : Server) (i : nat) : Server :=
  match tasks sv !! i with
  | Some (Queued r) =>
      match handle (store sv) r with
      | Some (st', seg) => mkServer st' (<[i := Suspended seg]> (tasks sv))
      | None => sv
      end
  | Some (Suspended seg) =>
      mkServer (store sv) (<[i := Answered (respond seg (store sv))]> (tasks sv))
  | _ => sv
  end.

Definition run (sv : Server) (schedule : list nat) : Server :=
  fold_left advance schedule sv.

(** The invariant tying the two tables together. *)
Definition consistent (st : Store) : Prop :=
  forall sc e, st_urls st !! sc = Some e ->
    exists events, st_clicks st !! sc = Some events /\ clicks e = length events.
(** The pattern [^[A-Za-z0-9]{4,}$], spelled out: at least four
    characters, each in one of the ranges a-z, A-Z, 0-9. *)
Definition alphanumeric (c : ascii) : Prop :=
  let n := nat_of_ascii c in
  (97 <= n /\ n <= 122) \/ (65 <= n /\ n <= 90) \/ (48 <= n /\ n <= 57).

Definition matchesPattern (code : string) : Prop :=
  4 <= String.length code /\
  forall c, In c (list_ascii_of_string code) -> alphanumeric c.

(** [n] is the positive integer the number [v] denotes. *)
Definition positiveInteger (v : JsValue) (n : Z) : Prop :=
  match v with
  | JsNumber q => Qeq q (inject_Z n) /\ (1 <= n)%Z
  | _ => False
  end.

(** The record does not refuse the redirect at [now]. *)
Definition live (e : UrlEntry) (now : Z) : Prop :=
  JsDate.lt (expiry e) (ValidDate now) = false.

(** A task that has run its first segment [seg]. *)
Definition settled (t : Task) (seg : Segment) : Prop :=
  t = Suspended seg \/ exists s, t = Answered (respond seg s).

(** The states of a server with two requests in flight, when the first
    segments run in one order or the other: from [st], request [r1]
    leads to [st1] and then [r2] to [st12]; or [r2] leads to [st2] and
    then [r1] to [st21]. *)
Inductive twoTasks (st st1 st2 st12 st21 : Store) (r1 r2 : Request)
    (seg1 seg2 seg12 seg21 : Segment) : Server -> Prop :=
| both_queued :
    twoTasks st st1 st2 st12 st21 r1 r2 seg1 seg2 seg12 seg21
      (mkServer st [Queued r1; Queued r2])
| first_started t1 :
    settled t1 seg1 ->
    twoTasks st st1 st2 st12 st21 r1 r2 seg1 seg2 seg12 seg21
      (mkServer st1 [t1; Queued r2])
| second_started t2 :
    settled t2 seg2 ->
    twoTasks st st1 st2 st12 st21 r1 r2 seg1 seg2 seg12 seg21
      (mkServer st2 [Queued r1; t2])
| first_then_second t1 t2 :
    settled t1 seg1 -> settled t2 seg12 ->
    twoTasks st st1 st2 st12 st21 r1 r2 seg1 seg2 seg12 seg21
      (mkServer st12 [t1; t2])
| second_then_first t1 t2 :
    settled t1 seg21 -> settled t2 seg2 ->
    twoTasks st st1 st2 st12 st21 r1 r2 seg1 seg2 seg12 seg21
      (mkServer st21 [t1; t2]).

(** No own property of the tables bears a built-in name. *)
Definition noBuiltin (st : Store) : Prop :=
  forall k, k ∈ objectPrototypeKeys ->
    st_urls st !! k = None /\ st_clicks st !! k = None.

End Handlers.

(** ** Sample requests and stores *)

(** A host on UTC. *)
Definition utc : JsDate.Zone := JsDate.mkZone (fun _ => 0%Z) (fun _ => 0%Z).

(** A host on Central European time around 26 October 2025, 01:00 UTC,
    when its clocks go back from 03:00 (UTC+2) to 02:00 (UTC+1). The
    local times from 02:00 to 03:00 occur twice and are read as the
    earlier instant, at UTC+2. *)
Definition clocksBack : Z := 1761440400000.

Definition centralEurope : JsDate.Zone :=
  JsDate.mkZone
    (fun t => if (t <? clocksBack)%Z then 7200000%Z else 3600000%Z)
    (fun l => if (l <? clocksBack + 7200000)%Z then 7200000%Z else 3600000%Z).

(** Ten minutes after the clocks went back; both readings of the
    creation handler fall in the same millisecond. *)
Definition autumnWorld : CreateWorld :=
  mkWorld (fun n => n) (clocksBack + 600000) (clocksBack + 600000).

(** Create(url, validity = 30, shortcode = "abc123") *)
Definition halfHourBody : CreateBody :=
  mkBody (UrlString "https://example.com/page"%string) (JsNumber 30) (Some "abc123"%string).

Definition autumnStore : Store :=
  mkStore {[ "abc123"%string :=
               mkEntry "https://example.com/page" (clocksBack + 600000)
                       (ValidDate (clocksBack - 1200000)) 0 ]}
          {[ "abc123"%string := [] ]}.

Definition sampleUrl : string := "https://example.com/page".

(** The draws 0, 1, 2, ...; the clock reads 1000 in [getExpiryDate] and
    1001 when [createdAt] is taken. *)
Definition sampleWorld : CreateWorld := mkWorld (fun n => n) 1000 1001.

(** Create(url, validity = 1, shortcode = "abc123") *)
Definition sampleBody : CreateBody :=
  mkBody (UrlString sampleUrl) (JsNumber 1) (Some "abc123"%string).

Definition sampleEntry : UrlEntry := mkEntry sampleUrl 1001 (ValidDate 61000) 0.

(** The store once [sampleBody] has been served on a fresh server. *)
Definition sampleStore : Store :=
  mkStore {[ "abc123"%string := sampleEntry ]} {[ "abc123"%string := [] ]}.

Definition sampleCall (now : Z) : ResolveCall :=
  mkCall (Some "https://news.example/"%string) "203.0.113.7" now now.


Definition generatedStore : Store :=
  mkStore {[ "abcdef"%string := mkEntry sampleUrl 1001 (ValidDate 1801000) 0 ]}
          {[ "abcdef"%string := [] ]}.

(** A second client asking for the same shortcode, two minutes valid. *)
Definition rivalBody : CreateBody :=
  mkBody (UrlString "https://example.org/"%string) (JsNumber 2) (Some "abc123"%string).

Definition rivalStore : Store :=
  mkStore {[ "abc123"%string := mkEntry "https://example.org/" 1001 (ValidDate 121000) 0 ]}
          {[ "abc123"%string := [] ]}.

(** * Properties *)

Section Facts.

Variable isUri : string -> bool.
Variable isUriOther : UrlValue -> OnNonString.
Variable zone : JsDate.Zone.

Local Abbreviation create := (create isUri isUriOther zone).
Local Abbreviation handle := (handle isUri isUriOther zone).
Local Abbreviation serve := (serve isUri isUriOther zone).
Local Abbreviation serveAll := (serveAll isUri isUriOther zone).
Local Abbreviation reachable := (reachable isUri isUriOther zone).
Local Abbreviation advance := (advance isUri isUriOther zone).
Local Abbreviation run := (run isUri isUriOther zone).
Local Abbreviation isUriOf := (isUriOf isUri isUriOther).
Local Abbreviation register := (register zone).

(** ** Facts about the helpers *)

Lemma makeDate_shift (l m : Z) :
  JsDate.MakeDate (JsDate.Day l)
    (JsDate.MakeTime (JsDate.HourFromTime l) (JsDate.MinFromTime l + m)
       (JsDate.SecFromTime l) (JsDate.msFromTime l))
  = (l + m * JsDate.msPerMinute)%Z.
Proof.
  unfold JsDate.MakeDate, JsDate.MakeTime, JsDate.Day, JsDate.HourFromTime,
    JsDate.MinFromTime, JsDate.SecFromTime, JsDate.msFromTime,
    JsDate.msPerDay, JsDate.msPerHour, JsDate.msPerMinute, JsDate.msPerSecond.
  Z.to_euclidean_division_equations. lia.
Qed.

(** Adding minutes through the local-time fields moves the time value
    by that many minutes, as long as the offset of the zone does not
    change on the way. *)
Lemma getExpiryDate_shift (now minutes : Z) :
  JsDate.steady zone now (minutes * JsDate.msPerMinute) ->
  getExpiryDate zone now minutes
  = JsDate.TimeClip (now + minutes * JsDate.msPerMinute).
Proof.
  intros Hsteady. unfold getExpiryDate, JsDate.setMinutes, JsDate.getMinutes.
  rewrite makeDate_shift. unfold JsDate.UTC, JsDate.LocalTime.
  unfold JsDate.steady in Hsteady. rewrite Hsteady. f_equal. lia.
Qed.

Lemma timeClip_valid (t ms : Z) :
  JsDate.TimeClip t = ValidDate ms -> ms = t.
Proof.
  unfold JsDate.TimeClip. destruct (Z.abs t <=? JsDate.maxTime)%Z; congruence.
Qed.

Lemma getProp_own {A : Type} (o : gmap string A) (k : string) (a : A) :
  o !! k = Some a -> getProp o k = Own a.
Proof. intros H. unfold getProp. now rewrite H. Qed.

Lemma getProp_own_inv {A : Type} (o : gmap string A) (k : string) (a : A) :
  getProp o k = Own a -> o !! k = Some a.
Proof.
  unfold getProp. destruct (o !! k); [congruence|].
  destruct (bool_decide _); discriminate.
Qed.

Lemma getProp_missing {A : Type} (o : gmap string A) (k : string) :
  getProp o k = Missing <-> o !! k = None /\ k ∉ objectPrototypeKeys.
Proof.
  unfold getProp. destruct (o !! k) as [a|].
  - split; [discriminate | intros [? _]; discriminate].
  - destruct (bool_decide_reflect (k ∈ objectPrototypeKeys)) as [Hin|Hout].
    + split; [discriminate | intros [_ ?]; contradiction].
    + split; auto.
Qed.

Lemma present_false {A : Type} (o : gmap string A) (k : string) :
  present o k = false <-> o !! k = None /\ k ∉ objectPrototypeKeys.
Proof.
  rewrite <- getProp_missing. unfold present.
  destruct (getProp o k); split; congruence.
Qed.

Lemma present_own {A : Type} (o : gmap string A) (k : string) (a : A) :
  o !! k = Some a -> present o k = true.
Proof. intros H. unfold present. now rewrite (getProp_own _ _ _ H). Qed.

(** The class [[a-zA-Z0-9]] is the alphabet [chars]. *)
Lemma isAlnum_chars (c : ascii) :
  isAlnum c = existsb (Ascii.eqb c) (list_ascii_of_string chars).
Proof. destruct c as [[] [] [] [] [] [] [] []]; reflexivity. Qed.

Lemma isAlnum_in_chars (c : ascii) :
  isAlnum c = true <-> In c (list_ascii_of_string chars).
Proof.
  rewrite isAlnum_chars, existsb_exists. split.
  - intros (x & Hx & Heq). apply Ascii.eqb_eq in Heq. now subst.
  - intros Hin. exists c. split; [assumption | apply Ascii.eqb_refl].
Qed.

Lemma pick_in_chars (r : nat) : In (pick r) (list_ascii_of_string chars).
Proof.
  unfold pick. apply nth_In.
  change (length (list_ascii_of_string chars)) with 62.
  change (String.length chars) with 62.
  apply Nat.mod_upper_bound. discriminate.
Qed.

Lemma length_string_of_list (l : list ascii) :
  String.length (string_of_list_ascii l) = length l.
Proof. induction l as [|c l IH]; simpl; congruence. Qed.

Lemma isAlnum_spec (c : ascii) : isAlnum c = true <-> alphanumeric c.
Proof.
  unfold isAlnum, alphanumeric. cbv zeta.
  rewrite !orb_true_iff, !andb_true_iff, !Nat.leb_le. tauto.
Qed.

Lemma isValidShortcode_spec (code : string) :
  isValidShortcode code = true <-> matchesPattern code.
Proof.
  unfold isValidShortcode, matchesPattern.
  rewrite andb_true_iff, forallb_forall, Nat.leb_le.
  split; intros [H1 H2]; split; try assumption;
    intros c Hc; apply isAlnum_spec; auto.
Qed.

Lemma candidate_chars (rnd : nat -> nat) (k : nat) :
  String.length (candidate rnd k) = 6 /\
  forall c, In c (list_ascii_of_string (candidate rnd k)) ->
            In c (list_ascii_of_string chars).
Proof.
  unfold candidate, drawCode. split.
  - now rewrite length_string_of_list, length_map, length_seq.
  - intros c. rewrite list_ascii_of_string_of_list_ascii, in_map_iff.
    intros (i & <- & _). apply pick_in_chars.
Qed.

Lemma candidate_valid (rnd : nat -> nat) (k : nat) :
  isValidShortcode (candidate rnd k) = true.
Proof.
  apply isValidShortcode_spec. destruct (candidate_chars rnd k) as [Hl Hc].
  split; [lia|]. intros c Hin. apply isAlnum_spec, isAlnum_in_chars. auto.
Qed.

(** [generateShortcode] returns the first candidate that is not a
    truthy property of [urls]. *)
Lemma generateFrom_first (urls : gmap string UrlEntry) (rnd : nat -> nat)
    (fuel k : nat) (code : string) :
  generateFrom urls rnd k fuel = Some code ->
  exists j, k <= j < k + fuel /\ code = candidate rnd j /\
            present urls code = false /\
            forall i, k <= i < j -> present urls (candidate rnd i) = true.
Proof.
  revert k. induction fuel as [|fuel IH]; intros k; simpl; [discriminate|].
  destruct (present urls (candidate rnd k)) eqn:Hk.
  - intros H. destruct (IH _ H) as (j & Hj & Hc & Hfree & Hbusy).
    exists j. repeat split; try assumption; try lia.
    intros i Hi. destruct (decide (i = k)) as [->|Hne]; [assumption|].
    apply Hbusy. lia.
  - intros [= <-]. exists k. repeat split; try assumption; lia.
Qed.

(** Enough iterations reach a free candidate when there is one. *)
Lemma generateFrom_total (urls : gmap string UrlEntry) (rnd : nat -> nat)
    (fuel k j : nat) :
  k <= j < k + fuel -> present urls (candidate rnd j) = false ->
  exists code, generateFrom urls rnd k fuel = Some code.
Proof.
  revert k. induction fuel as [|fuel IH]; intros k Hj Hfree; [lia|].
  simpl. destruct (present urls (candidate rnd k)) eqn:Hk; [|eauto].
  apply IH; [|assumption].
  destruct (decide (j = k)) as [->|Hne]; [congruence | lia].
Qed.

Lemma prototypeKey_length (k : string) :
  k ∈ objectPrototypeKeys -> String.length k <> 6.
Proof.
  unfold objectPrototypeKeys. rewrite !elem_of_cons, elem_of_nil.
  intros H. repeat (destruct H as [->|H]; [simpl; lia|]). contradiction.
Qed.

(** A six-letter candidate is never a built-in name: for it, being a
    truthy property of [urls] is keying a record. *)
Lemma present_candidate (urls : gmap string UrlEntry) (rnd : nat -> nat) (k : nat) :
  present urls (candidate rnd k) = true <-> is_Some (urls !! candidate rnd k).
Proof.
  unfold present, getProp. destruct (urls !! candidate rnd k) as [e|] eqn:He.
  - split; [eauto | reflexivity].
  - destruct (bool_decide_reflect (candidate rnd k ∈ objectPrototypeKeys)) as [Hin|Hout].
    + apply prototypeKey_length in Hin.
      destruct (candidate_chars rnd k) as [Hlen _]. contradiction.
    + split; [discriminate | intros [? ?]; discriminate].
Qed.

(** ** Facts about [POST /shorturls] *)

Lemma chooseShortcode_chosen (st : Store) (body : CreateBody)
    (rnd : nat -> nat) (fuel : nat) (code : string) :
  chooseShortcode st body rnd fuel = Chosen code ->
  (truthy (b_shortcode body) = true /\ b_shortcode body = Some code /\
   isValidShortcode code = true /\ present (st_urls st) code = false)
  \/ (truthy (b_shortcode body) = false /\
      generateShortcode (st_urls st) rnd fuel = Some code).
Proof.
  unfold chooseShortcode. destruct (truthy (b_shortcode body)) eqn:Ht.
  - destruct (isValidShortcode _) eqn:Hv; simpl; [|discriminate].
    destruct (present _ _) eqn:Hp; [discriminate|].
    intros [= <-]. left. destruct (b_shortcode body); [auto | discriminate].
  - destruct (generateShortcode _ _ _) eqn:Hg; [|discriminate].
    intros [= <-]. right. auto.
Qed.

Lemma chooseShortcode_fresh (st : Store) (body : CreateBody)
    (rnd : nat -> nat) (fuel : nat) (code : string) :
  chooseShortcode st body rnd fuel = Chosen code ->
  isValidShortcode code = true /\ st_urls st !! code = None.
Proof.
  intros H. apply chooseShortcode_chosen in H.
  destruct H as [(_ & _ & Hv & Hp) | (_ & Hg)].
  - split; [assumption|]. now apply present_false in Hp.
  - apply generateFrom_first in Hg. destruct Hg as (j & _ & -> & Hp & _).
    split; [apply candidate_valid|]. now apply present_false in Hp.
Qed.

Lemma chooseShortcode_early (st : Store) (body : CreateBody)
    (rnd : nat -> nat) (fuel : nat) (seg : Segment) :
  chooseShortcode st body rnd fuel = Early seg ->
  forall later, respond seg later = InvalidShortcode \/
                respond seg later = ShortcodeConflict.
Proof.
  unfold chooseShortcode. destruct (truthy (b_shortcode body)).
  - destruct (isValidShortcode _); simpl.
    + destruct (present _ _); [|discriminate]. intros [= <-]. now right.
    + intros [= <-]. now left.
  - destruct (generateShortcode _ _ _); discriminate.
Qed.

Lemma chooseDuration_number (q : Q) (n : Z) :
  chooseDuration (JsNumber q) = inr n <-> positiveInteger (JsNumber q) n.
Proof.
  unfold chooseDuration, isInteger, lessThanOne, numberValue, positiveInteger.
  assert (Hfloor : Qeq q (inject_Z n) -> Qfloor q = n).
  { intros Hq. rewrite <- (Qfloor_Z n). now apply Qfloor_comp. }
  destruct (Qeq_bool (inject_Z (Qfloor q)) q) eqn:Hi.
  - apply Qeq_bool_iff in Hi.
    destruct (Qle_bool 1 q) eqn:Hle; cbn [negb orb].
    + apply Qle_bool_iff in Hle. split.
      * intros [= <-]. split; [now symmetry|].
        rewrite Zle_Qle. now rewrite Hi.
      * intros [Hq _]. f_equal. now apply Hfloor.
    + split; [discriminate|]. intros [Hq Hn]. exfalso.
      assert (Hle' : Qle_bool 1 q = true).
      { apply Qle_bool_iff. rewrite Hq. rewrite Zle_Qle in Hn. exact Hn. }
      congruence.
  - cbn [negb orb]. split; [discriminate|]. intros [Hq _]. exfalso.
    assert (Hi' : Qeq_bool (inject_Z (Qfloor q)) q = true).
    { apply Qeq_bool_iff. rewrite (Hfloor Hq). now symmetry. }
    congruence.
Qed.

Lemma chooseDuration_ok (v : JsValue) (n : Z) :
  chooseDuration v = inr n <->
  (v = JsUndefined /\ n = 30%Z) \/ positiveInteger v n.
Proof.
  destruct v as [|q|].
  - simpl. split.
    + intros [= <-]. now left.
    + intros [[_ ->]|[]]. reflexivity.
  - rewrite chooseDuration_number. split; [now right|].
    intros [[? _]|?]; [discriminate | assumption].
  - simpl. split; [discriminate|]. intros [[? _]|[]]. discriminate.
Qed.

Lemma chooseDuration_early (v : JsValue) (seg : Segment) :
  chooseDuration v = inl seg ->
  seg = log "error" "invalid validity minutes" InvalidValidity.
Proof.
  unfold chooseDuration. destruct v; try discriminate;
    destruct (negb _ || _); congruence.
Qed.

(** ** Facts about the test of the url *)

(** The url passes the test of line 40 exactly when it is a non-empty
    string that [isUri] accepts. *)
Lemma isUriOf_accepted (v : UrlValue) (u : string) :
  urlTruthy v = true /\ isUriOf v = Accepted u <->
  v = UrlString u /\ truthy (textOf v) = true /\ isUri (stringOf (textOf v)) = true.
Proof.
  split.
  - intros [Ht Ha]. destruct v as [|s| |b|q| |]; simpl in Ha;
      try (destruct (isUriOther _); discriminate).
    simpl. destruct (isUri s) eqn:Hi; [|discriminate].
    injection Ha as <-. auto.
  - intros (-> & Ht & Hi). simpl in *. now rewrite Hi.
Qed.

(** The three ways the test of line 40 ends. *)
Lemma create_url_cases (st : Store) (body : CreateBody) (w : CreateWorld)
    (fuel : nat) :
  (truthy (textOf (b_url body)) = true /\
   isUri (stringOf (textOf (b_url body))) = true /\
   create st body w fuel = register st (stringOf (textOf (b_url body))) body w fuel) \/
  create st body w fuel = Some (st, log "error" "invalid or missing url" InvalidUrl) \/
  (urlTruthy (b_url body) = true /\ textOf (b_url body) = None /\
   isUriOther (b_url body) = RaisesTypeError /\
   create st body w fuel = Some (st, Reject TypeError)).
Proof.
  unfold create. destruct (urlTruthy (b_url body)) eqn:Ht; [|right; now left].
  cbn [negb]. destruct (b_url body) as [|s| |b|q| |] eqn:Hv;
    unfold isUriOf; cbn [textOf stringOf default];
    try (destruct (isUriOther _) eqn:Ho;
         [right; now left | right; right; repeat split; reflexivity || assumption]).
  destruct (isUri s) eqn:Hi; [left; auto | right; now left].
Qed.

Lemma create_accepted (st : Store) (body : CreateBody) (w : CreateWorld)
    (fuel : nat) :
  truthy (textOf (b_url body)) = true ->
  isUri (stringOf (textOf (b_url body))) = true ->
  create st body w fuel = register st (stringOf (textOf (b_url body))) body w fuel.
Proof.
  intros Hu Hi. unfold create.
  destruct (b_url body) as [|s| |b|q| |]; try discriminate.
  simpl in *. now rewrite Hu, Hi.
Qed.

(** A url that is falsy, or a string that [isUri] refuses, or another
    value for which [isUri] returns undefined, is answered InvalidUrl on
    the store as it is. *)
Lemma create_invalid_url (st : Store) (body : CreateBody) (w : CreateWorld)
    (fuel : nat) :
  urlTruthy (b_url body) = false \/
  (exists s, b_url body = UrlString s /\ isUri s = false) \/
  (textOf (b_url body) = None /\ isUriOther (b_url body) = ReturnsUndefined) ->
  create st body w fuel = Some (st, log "error" "invalid or missing url" InvalidUrl).
Proof.
  unfold create. intros [-> | [(s & -> & Hi) | [Hn Ho]]]; [reflexivity| |].
  - destruct (urlTruthy _); [|reflexivity]. simpl. now rewrite Hi.
  - destruct (urlTruthy _); [|reflexivity]. cbn [negb].
    destruct (b_url body); try discriminate; simpl; now rewrite Ho.
Qed.

(** A truthy url that is not a string, on which [isUri] raises: the
    handler's promise rejects with the store as it is, and no response
    is sent. *)
Lemma create_url_raises (st : Store) (body : CreateBody) (w : CreateWorld)
    (fuel : nat) :
  urlTruthy (b_url body) = true -> textOf (b_url body) = None ->
  isUriOther (b_url body) = RaisesTypeError ->
  create st body w fuel = Some (st, Reject TypeError).
Proof.
  intros Ht Hn Ho. unfold create. rewrite Ht. cbn [negb].
  destruct (b_url body); try discriminate; simpl; now rewrite Ho.
Qed.

(** ** Facts about [POST /shorturls] past the test of the url *)

(** The successful path of the handler, read backwards. *)
Lemma create_created (st st' : Store) (body : CreateBody) (w : CreateWorld)
    (fuel : nat) (seg : Segment) (later : Store) (link : string) (ms : Z) :
  create st body w fuel = Some (st', seg) ->
  respond seg later = Json 201 (CreatedBody link ms) ->
  truthy (textOf (b_url body)) = true /\ isUri (stringOf (textOf (b_url body))) = true /\
  exists code minutes,
    chooseShortcode st body (random w) fuel = Chosen code /\
    chooseDuration (b_validity body) = inr minutes /\
    getExpiryDate zone (expiryClock w) minutes = ValidDate ms /\
    link = HOSTNAME +:+ "/shorturls/" +:+ code /\
    st' = mkStore
            (<[code := mkEntry (stringOf (textOf (b_url body))) (createdClock w) (ValidDate ms) 0]>
               (st_urls st))
            (<[code := []]> (st_clicks st)).
Proof.
  destruct (create_url_cases st body w fuel) as [(Hu & Hi & ->)|[->|(_ & _ & _ & ->)]];
    [|intros [= <- <-]; discriminate..].
  unfold register.
  destruct (chooseShortcode _ _ _ _) as [early|code|] eqn:Hc; [| |discriminate].
  { intros [= <- <-] Hr.
    destruct (chooseShortcode_early _ _ _ _ _ Hc later) as [H|H];
      rewrite H in Hr; discriminate. }
  destruct (chooseDuration _) as [early|minutes] eqn:Hd.
  { intros [= <- <-] Hr. apply chooseDuration_early in Hd. subst early.
    discriminate. }
  intros [= <- <-]. simpl.
  destruct (getExpiryDate _ _ _) as [ms'|] eqn:He; [|discriminate].
  intros [= <- <-]. split; [assumption|]. split; [assumption|].
  exists code, minutes. repeat split; assumption.
Qed.

(** Whatever the outcome, the handler leaves the store alone or adds
    one fresh entry with a zero counter and an empty ledger. *)
Lemma create_store (st st' : Store) (body : CreateBody) (w : CreateWorld)
    (fuel : nat) (seg : Segment) :
  create st body w fuel = Some (st', seg) ->
  st' = st \/
  exists code e,
    isValidShortcode code = true /\ st_urls st !! code = None /\ clicks e = 0 /\
    st' = mkStore (<[code := e]> (st_urls st)) (<[code := []]> (st_clicks st)).
Proof.
  destruct (create_url_cases st body w fuel) as [(_ & _ & ->)|[->|(_ & _ & _ & ->)]];
    [|intros [= <- <-]; now left..].
  unfold register.
  destruct (chooseShortcode _ _ _ _) as [early|code|] eqn:Hc;
    [intros [= <- <-]; now left | | discriminate].
  destruct (chooseDuration _) as [early|minutes];
    [intros [= <- <-]; now left|].
  intros [= <- <-]. right.
  destruct (chooseShortcode_fresh _ _ _ _ _ Hc) as [Hv Hn].
  eexists code, _. repeat split; [assumption | assumption | reflexivity].
Qed.

Lemma create_consistent (st st' : Store) (body : CreateBody) (w : CreateWorld)
    (fuel : nat) (seg : Segment) :
  consistent st -> create st body w fuel = Some (st', seg) -> consistent st'.
Proof.
  intros Hst Hc. apply create_store in Hc.
  destruct Hc as [->|(code & e & _ & Hfree & He & ->)]; [assumption|].
  intros sc e'. simpl. destruct (decide (code = sc)) as [->|Hne].
  - rewrite !lookup_insert_eq. intros [= <-]. exists []. now rewrite He.
  - rewrite !lookup_insert_ne by assumption. apply Hst.
Qed.

(** ** Facts about [GET /shorturls/:shortcode] *)

Lemma live_valid (e : UrlEntry) (x now : Z) :
  expiry e = ValidDate x -> (live e now <-> (now <= x)%Z).
Proof.
  intros He. unfold live. rewrite He. simpl. rewrite Z.ltb_ge. reflexivity.
Qed.

Lemma resolve_live (st : Store) (sc : string) (e : UrlEntry)
    (events : list Click) (header : option string) (reqIp : string)
    (nowCheck nowClick : Z) :
  st_urls st !! sc = Some e -> st_clicks st !! sc = Some events ->
  live e nowCheck ->
  resolve st sc header reqIp nowCheck nowClick
  = (mkStore (<[sc := bump e]> (st_urls st))
             (<[sc := events ++ [mkClick nowClick (referrerOf header) reqIp]]>
                (st_clicks st)),
     log "info" ("redirect for shortcode: " +:+ sc) (Redirect (url e))).
Proof.
  intros Hu Hc Hl. unfold resolve.
  rewrite (getProp_own _ _ _ Hu), (getProp_own _ _ _ Hc).
  unfold expired. unfold live in Hl. now rewrite Hl.
Qed.

Lemma resolve_expired (st : Store) (sc : string) (e : UrlEntry)
    (header : option string) (reqIp : string) (nowCheck nowClick : Z) :
  st_urls st !! sc = Some e -> ~ live e nowCheck ->
  resolve st sc header reqIp nowCheck nowClick
  = (st, log "fatal" ("expired shortcode: " +:+ sc) Expired).
Proof.
  intros Hu Hl. unfold resolve. rewrite (getProp_own _ _ _ Hu).
  unfold expired. unfold live in Hl.
  destruct (JsDate.lt _ _); [reflexivity | contradiction].
Qed.

Lemma resolve_consistent (st : Store) (sc : string) (header : option string)
    (reqIp : string) (nowCheck nowClick : Z) :
  consistent st ->
  consistent (fst (resolve st sc header reqIp nowCheck nowClick)).
Proof.
  intros Hst. unfold resolve.
  destruct (getProp (st_urls st) sc) as [e| |] eqn:Hu; [| |assumption].
  - apply getProp_own_inv in Hu.
    destruct (expired (Own e) nowCheck); [assumption|].
    destruct (Hst _ _ Hu) as (events & Hc & Hlen).
    rewrite (getProp_own _ _ _ Hc). simpl.
    intros k e'. cbn [st_urls st_clicks]. destruct (decide (sc = k)) as [->|Hne].
    + rewrite !lookup_insert_eq. intros [= <-].
      eexists; split; [reflexivity|]. rewrite length_app. simpl. lia.
    + rewrite !lookup_insert_ne by assumption. apply Hst.
  - assert (Hnone : st_urls st !! sc = None).
    { unfold getProp in Hu. destruct (st_urls st !! sc); [discriminate | reflexivity]. }
    simpl. destruct (getProp (st_clicks st) sc) as [events| |]; try assumption.
    simpl. intros k e'. cbn [st_urls st_clicks]. intros Hk.
    destruct (decide (sc = k)) as [->|Hne]; [congruence|].
    rewrite lookup_insert_ne by assumption. now apply Hst.
Qed.

(** A redirect leaves every other shortcode as it was. *)
Lemma resolve_others (st : Store) (sc other : string) (header : option string)
    (reqIp : string) (nowCheck nowClick : Z) :
  other <> sc ->
  let st' := fst (resolve st sc header reqIp nowCheck nowClick) in
  st_urls st' !! other = st_urls st !! other /\
  st_clicks st' !! other = st_clicks st !! other.
Proof.
  intros Hne. unfold resolve.
  destruct (getProp (st_urls st) sc) as [e| |]; [| |now split].
  - destruct (expired _ _); [now split|].
    destruct (getProp (st_clicks st) sc); simpl;
      rewrite ?lookup_insert_ne by congruence; now split.
  - destruct (expired _ _); [now split|].
    destruct (getProp (st_clicks st) sc); simpl;
      rewrite ?lookup_insert_ne by congruence; now split.
Qed.

Lemma resolveAll_live (calls : list ResolveCall) :
  forall (st : Store) (sc : string) (e : UrlEntry) (events : list Click),
  st_urls st !! sc = Some e -> st_clicks st !! sc = Some events ->
  Forall (fun c => live e (c_nowCheck c)) calls ->
  st_urls (fst (resolveAll st sc calls)) !! sc
    = Some (mkEntry (url e) (createdAt e) (expiry e) (clicks e + length calls)) /\
  st_clicks (fst (resolveAll st sc calls)) !! sc
    = Some (events ++ map clickOf calls) /\
  snd (resolveAll st sc calls) = map (fun _ => Redirect (url e)) calls.
Proof.
  induction calls as [|c calls IH]; intros st sc e events Hu Hc Hall.
  - simpl. rewrite Nat.add_0_r, app_nil_r. destruct e. auto.
  - inversion Hall as [|? ? Hlive Hrest]; subst. simpl.
    rewrite (resolve_live _ _ _ _ _ _ _ _ Hu Hc Hlive).
    match goal with
    | |- context [resolveAll ?s sc calls] =>
        specialize (IH s sc (bump e) (events ++ [clickOf c]))
    end.
    simpl in IH. rewrite !lookup_insert_eq in IH.
    specialize (IH eq_refl eq_refl Hrest).
    destruct (resolveAll _ sc calls) as [st2 rs]. simpl in *.
    destruct IH as (IH1 & IH2 & IH3). repeat split.
    + rewrite IH1. do 2 f_equal. lia.
    + rewrite IH2, <- app_assoc. reflexivity.
    + now rewrite IH3.
Qed.

(** ** Facts about [GET /shorturls/:shortcode/stats] *)

Lemma stats_store (st : Store) (sc : string) : fst (stats st sc) = st.
Proof. unfold stats. now destruct (getProp (st_urls st) sc). Qed.

Lemma stats_record (st : Store) (sc : string) (e : UrlEntry) (events : list Click) :
  st_urls st !! sc = Some e -> st_clicks st !! sc = Some events ->
  serve st (Stats sc) = Some (st, Json 200 (StatsBody sc (Some e) events)).
Proof.
  intros Hu Hc. unfold serve, handle, stats.
  rewrite (getProp_own _ _ _ Hu). simpl.
  rewrite (getProp_own _ _ _ Hc), Hu, Hc. reflexivity.
Qed.

Lemma stats_missing (st : Store) (sc : string) :
  st_urls st !! sc = None -> sc ∉ objectPrototypeKeys ->
  serve st (Stats sc) = Some (st, NotFound).
Proof.
  intros Hu Hk. unfold serve, handle, stats.
  assert (H : getProp (st_urls st) sc = Missing) by now apply getProp_missing.
  now rewrite H.
Qed.

(** ** The invariant *)

Lemma handle_consistent (st st' : Store) (r : Request) (seg : Segment) :
  consistent st -> handle st r = Some (st', seg) -> consistent st'.
Proof.
  intros Hst. destruct r as [body w fuel|sc header reqIp t1 t2|sc]; simpl.
  - now apply create_consistent.
  - intros [= Heq].
    pose proof (resolve_consistent st sc header reqIp t1 t2 Hst) as H.
    now rewrite Heq in H.
  - intros [= Heq]. pose proof (stats_store st sc) as H.
    rewrite Heq in H. simpl in H. now subst.
Qed.

Lemma reachable_consistent (st : Store) : reachable st -> consistent st.
Proof.
  induction 1 as [|st r st' seg _ IH Hh].
  - intros sc e. simpl. rewrite lookup_empty. discriminate.
  - eapply handle_consistent; eassumption.
Qed.

(** ** Facts about the event loop *)

Lemma advance_reachable (sv : Server) (i : nat) :
  reachable (store sv) -> reachable (store (advance sv i)).
Proof.
  intros Hr. unfold advance. destruct (tasks sv !! i) as [[r|seg|resp]|]; try assumption.
  destruct (handle (store sv) r) as [[st' seg]|] eqn:Hh; [|assumption].
  simpl. eapply reachable_handle; eassumption.
Qed.

(** Interleaving the segments of the requests in flight reaches no
    store that serving requests one after the other does not reach. *)
Lemma run_reachable (schedule : list nat) (sv : Server) :
  reachable (store sv) -> reachable (store (run sv schedule)).
Proof.
  revert sv. induction schedule as [|i schedule IH]; intros sv Hr; [assumption|].
  simpl. apply IH. now apply advance_reachable.
Qed.

Section TwoTasks.

Variables st st1 st2 st12 st21 : Store.
Variables r1 r2 : Request.
Variables seg1 seg2 seg12 seg21 : Segment.
Hypothesis first_alone : handle st r1 = Some (st1, seg1).
Hypothesis second_alone : handle st r2 = Some (st2, seg2).
Hypothesis second_after : handle st1 r2 = Some (st12, seg12).
Hypothesis first_after : handle st2 r1 = Some (st21, seg21).

Local Abbreviation inflight :=
  (twoTasks st st1 st2 st12 st21 r1 r2 seg1 seg2 seg12 seg21).

Lemma settled_suspended (seg : Segment) : settled (Suspended seg) seg.
Proof. now left. Qed.

Lemma settled_answered (seg : Segment) (s : Store) :
  settled (Answered (respond seg s)) seg.
Proof. right. now exists s. Qed.

Lemma advance_twoTasks (sv : Server) (i : nat) :
  inflight sv -> inflight (advance sv i).
Proof.
  intros Hsv. unfold advance.
  destruct Hsv as [|t1 Ht1|t2 Ht2|t1 t2 Ht1 Ht2|t1 t2 Ht1 Ht2];
    destruct i as [|[|i]]; cbn [tasks store lookup list_lookup];
    simpl.
  - rewrite first_alone. apply first_started, settled_suspended.
  - rewrite second_alone. apply second_started, settled_suspended.
  - constructor.
  - destruct Ht1 as [->|[s ->]]; simpl;
      apply first_started; [apply settled_answered | apply settled_answered].
  - rewrite second_after. apply first_then_second;
      [assumption | apply settled_suspended].
  - now constructor.
  - rewrite first_after. apply second_then_first;
      [apply settled_suspended | assumption].
  - destruct Ht2 as [->|[s ->]]; simpl;
      apply second_started; apply settled_answered.
  - now constructor.
  - destruct Ht1 as [->|[s ->]]; simpl; apply first_then_second;
      try assumption; apply settled_answered.
  - destruct Ht2 as [->|[s ->]]; simpl; apply first_then_second;
      try assumption; apply settled_answered.
  - now constructor.
  - destruct Ht1 as [->|[s ->]]; simpl; apply second_then_first;
      try assumption; apply settled_answered.
  - destruct Ht2 as [->|[s ->]]; simpl; apply second_then_first;
      try assumption; apply settled_answered.
  - now constructor.
Qed.

Lemma run_twoTasks (schedule : list nat) (sv : Server) :
  inflight sv -> inflight (run sv schedule).
Proof.
  revert sv. induction schedule as [|i schedule IH]; intros sv Hsv; [assumption|].
  simpl. apply IH. now apply advance_twoTasks.
Qed.

(** Once both requests are answered, the server is where serving
    them one after the other, in one of the two orders, leaves it. *)
Lemma run_serial (schedule : list nat) (a1 a2 : Response) :
  tasks (run (mkServer st [Queued r1; Queued r2]) schedule)
    = [Answered a1; Answered a2] ->
  (store (run (mkServer st [Queued r1; Queued r2]) schedule) = st12 /\
   (exists s, a1 = respond seg1 s) /\ (exists s, a2 = respond seg12 s))
  \/
  (store (run (mkServer st [Queued r1; Queued r2]) schedule) = st21 /\
   (exists s, a1 = respond seg21 s) /\ (exists s, a2 = respond seg2 s)).
Proof.
  pose proof (run_twoTasks schedule _ (both_queued _ _ _ _ _ _ _ _ _ _ _)) as H.
  destruct H as [|t1 Ht1|t2 Ht2|t1 t2 Ht1 Ht2|t1 t2 Ht1 Ht2];
    cbn [tasks store]; intros [= -> ->].
  - left. split; [reflexivity|].
    destruct Ht1 as [?|[s1 [= ->]]]; [discriminate|].
    destruct Ht2 as [?|[s2 [= ->]]]; [discriminate|]. eauto.
  - right. split; [reflexivity|].
    destruct Ht1 as [?|[s1 [= ->]]]; [discriminate|].
    destruct Ht2 as [?|[s2 [= ->]]]; [discriminate|]. eauto.
Qed.

End TwoTasks.

(** No request ever registers a built-in name: a custom one is answered
    with a conflict, and a generated code has six letters. *)
Lemma handle_noBuiltin (st st' : Store) (r : Request) (seg : Segment) :
  noBuiltin st -> handle st r = Some (st', seg) -> noBuiltin st'.
Proof.
  intros Hst. destruct r as [body w fuel|sc header reqIp t1 t2|sc]; simpl.
  - intros Hc.
    destruct (create_url_cases st body w fuel) as [(_ & _ & Heq)|[Heq|(_ & _ & _ & Heq)]];
      rewrite Heq in Hc; [|injection Hc as <- _; assumption..].
    unfold register in Hc.
    destruct (chooseShortcode _ _ _ _) as [early|code|] eqn:Hch;
      [injection Hc as <- _; assumption | | discriminate].
    destruct (chooseDuration _) as [early|minutes];
      [injection Hc as <- _; assumption|].
    injection Hc as <- _. intros k Hk. cbn [st_urls st_clicks].
    assert (Hp : present (st_urls st) code = false).
    { apply chooseShortcode_chosen in Hch.
      destruct Hch as [(_ & _ & _ & Hp)|(_ & Hg)]; [assumption|].
      apply generateFrom_first in Hg. now destruct Hg as (j & _ & _ & Hp & _). }
    apply present_false in Hp. destruct Hp as [_ Hout].
    assert (code <> k) by congruence.
    rewrite !lookup_insert_ne by assumption. now apply Hst.
  - intros [= Heq]. intros k Hk. destruct (Hst k Hk) as [Hu Hc].
    destruct (decide (k = sc)) as [->|Hne].
    + unfold resolve in Heq. unfold getProp in Heq. rewrite Hu, Hc in Heq.
      rewrite bool_decide_eq_true_2 in Heq by assumption.
      simpl in Heq. injection Heq as <- _. now split.
    + pose proof (resolve_others st sc k header reqIp t1 t2 Hne) as H.
      rewrite Heq in H. simpl in H. destruct H as [-> ->]. now split.
  - intros [= Heq]. pose proof (stats_store st sc) as H.
    rewrite Heq in H. simpl in H. now subst.
Qed.

Lemma reachable_noBuiltin (st : Store) : reachable st -> noBuiltin st.
Proof.
  induction 1 as [|st r st' seg _ IH Hh].
  - intros k _. simpl. now rewrite !lookup_empty.
  - eapply handle_noBuiltin; eassumption.
Qed.

Lemma stats_builtin (st : Store) (k : string) :
  reachable st -> k ∈ objectPrototypeKeys ->
  st_urls st !! k = None /\ serve st (Stats k) = Some (st, Throws TypeError).
Proof.
  intros Hr Hk. destruct (reachable_noBuiltin st Hr k Hk) as [Hu Hc].
  split; [assumption|]. unfold serve, handle, stats, getProp.
  rewrite Hu, Hc, bool_decide_eq_true_2 by assumption. reflexivity.
Qed.

(** Away from the built-in names, the statistics are refused exactly
    for the shortcodes without a record. *)
Lemma stats_not_found_iff (st : Store) (sc : string) :
  sc ∉ objectPrototypeKeys ->
  (serve st (Stats sc) = Some (st, NotFound) <-> st_urls st !! sc = None).
Proof.
  intros Hk. split.
  - unfold serve, handle, stats, getProp.
    destruct (st_urls st !! sc) as [e|]; [|reflexivity].
    simpl. destruct (st_clicks st !! sc); simpl.
    + discriminate.
    + rewrite bool_decide_eq_false_2 by assumption. discriminate.
  - intros Hu. now apply stats_missing.
Qed.

(** A creation leaves the records that exist as they are. *)
Lemma create_others (st st' : Store) (body : CreateBody) (w : CreateWorld)
    (fuel : nat) (seg : Segment) (sc : string) :
  create st body w fuel = Some (st', seg) -> is_Some (st_urls st !! sc) ->
  st_urls st' !! sc = st_urls st !! sc /\ st_clicks st' !! sc = st_clicks st !! sc.
Proof.
  intros Hc [e He]. apply create_store in Hc.
  destruct Hc as [->|(code & e' & _ & Hfree & _ & ->)]; [now split|].
  assert (code <> sc) by congruence.
  cbn [st_urls st_clicks]. now rewrite !lookup_insert_ne by assumption.
Qed.

(** Whatever else is served in between, the counter of a record grows by
    the number of its redirects that were served, and its ledger by
    their events, in the order of the requests. *)
Lemma served_clicks_accumulate (reqs : list Request) :
  forall (st st' : Store) (rs : list Response) (sc : string) (e : UrlEntry)
         (events : list Click),
  st_urls st !! sc = Some e -> st_clicks st !! sc = Some events ->
  serveAll st reqs = Some (st', rs) ->
  st_urls st' !! sc
    = Some (mkEntry (url e) (createdAt e) (expiry e)
                    (clicks e + length (clicksServed sc reqs rs))) /\
  st_clicks st' !! sc = Some (events ++ clicksServed sc reqs rs).
Proof.
  induction reqs as [|r reqs IH]; intros st st' rs sc e events Hu Hc.
  - intros [= <- <-]. simpl. rewrite Nat.add_0_r, app_nil_r. destruct e. auto.
  - cbn [serveAll].
    destruct (serve st r) as [[st1 a]|] eqn:Hserve; [|discriminate].
    destruct (serveAll st1 reqs) as [[st2 rs']|] eqn:Hrest; [|discriminate].
    intros [= <- <-]. unfold serve in Hserve.
    destruct r as [body w fuel|sc' header reqIp t1 t2|sc']; cbn [handle] in Hserve.
    + destruct (create st body w fuel) as [[s seg]|] eqn:Hcr; [|discriminate].
      injection Hserve as <- _.
      destruct (create_others _ _ _ _ _ _ sc Hcr ltac:(eauto)) as [Hu' Hc'].
      rewrite Hu in Hu'. rewrite Hc in Hc'.
      destruct (IH _ _ _ _ _ _ Hu' Hc' Hrest) as [H1 H2].
      destruct a; simpl; auto.
    + destruct (decide (sc' = sc)) as [->|Hne].
      * destruct (JsDate.lt (expiry e) (ValidDate t1)) eqn:Hlt.
        -- rewrite (resolve_expired st sc e) in Hserve
             by (assumption || (unfold live; congruence)).
           injection Hserve as <- <-.
           destruct (IH _ _ _ _ _ _ Hu Hc Hrest) as [H1 H2]. simpl. auto.
        -- rewrite (resolve_live st sc e events) in Hserve by assumption.
           injection Hserve as <- <-.
           pose proof (fun Hu' Hc' =>
                         IH _ _ _ sc (bump e)
                            (events ++ [mkClick t2 (referrerOf header) reqIp])
                            Hu' Hc' Hrest) as IH'.
           cbn [st_urls st_clicks] in IH'. rewrite !lookup_insert_eq in IH'.
           destruct (IH' eq_refl eq_refl) as [H1 H2].
           cbn [clicksServed respond log]. rewrite String.eqb_refl.
           cbn [app length]. simpl in H1. rewrite H1, H2, <- app_assoc.
           split; [do 2 f_equal; lia | reflexivity].
      * pose proof (resolve_others st sc' sc header reqIp t1 t2 ltac:(congruence)) as Hothers.
        destruct (resolve st sc' header reqIp t1 t2) as [s seg].
        injection Hserve as <- <-. cbn [fst] in Hothers. destruct Hothers as [Hu' Hc'].
        rewrite Hu in Hu'. rewrite Hc in Hc'.
        destruct (IH _ _ _ _ _ _ Hu' Hc' Hrest) as [H1 H2].
        assert (Hneq : String.eqb sc' sc = false) by now apply String.eqb_neq.
        cbn [clicksServed]. rewrite Hneq. destruct (respond seg s); simpl; auto.
    + pose proof (stats_store st sc') as Hsame.
      destruct (stats st sc') as [s seg]. injection Hserve as <- <-.
      cbn [fst] in Hsame. subst s.
      destruct (IH _ _ _ _ _ _ Hu Hc Hrest) as [H1 H2].
      cbn [clicksServed]. destruct (respond seg st); simpl; auto.
Qed.

(** With a request that carries no shortcode, [generateShortcode] returns
    as soon as the loop is given enough iterations to reach a candidate
    that keys no record, and the handler reaches its [await]. *)
Lemma create_generated_returns (st : Store) (body : CreateBody) (w : CreateWorld)
    (fuel j : nat) :
  truthy (b_shortcode body) = false ->
  j < fuel -> st_urls st !! candidate (random w) j = None ->
  exists st' seg, create st body w fuel = Some (st', seg).
Proof.
  intros Hs Hj Hfree.
  destruct (create_url_cases st body w fuel) as [(_ & _ & ->)|[->|(_ & _ & _ & ->)]];
    [|eauto..].
  unfold register, chooseShortcode. rewrite Hs.
  destruct (generateFrom_total (st_urls st) (random w) fuel 0 j) as [code Hg];
    [lia | |].
  { destruct (present (st_urls st) (candidate (random w) j)) eqn:Hp; [|reflexivity].
    apply present_candidate in Hp. destruct Hp as [? ?]. congruence. }
  unfold generateShortcode. rewrite Hg.
  destruct (chooseDuration _); eauto.
Qed.

(** In a reachable store the statistics of a record are served, expired
    or not: no handler of the three ever looks at the expiry here. *)
Lemma stats_existing_record (st : Store) (sc : string) (e : UrlEntry) :
  reachable st -> st_urls st !! sc = Some e ->
  exists events,
    st_clicks st !! sc = Some events /\ clicks e = length events /\
    serve st (Stats sc) = Some (st, Json 200 (StatsBody sc (Some e) events)).
Proof.
  intros Hr Hu. destruct (reachable_consistent st Hr sc e Hu) as (events & Hc & Hlen).
  exists events. split; [assumption|]. split; [assumption|].
  now apply stats_record.
Qed.

(** Asking twice gives the same answer. *)
Lemma stats_twice (st st' : Store) (sc : string) (r : Response) :
  serve st (Stats sc) = Some (st', r) -> serve st' (Stats sc) = Some (st', r).
Proof.
  intros H. assert (st' = st); [|now subst].
  unfold serve, handle in H. pose proof (stats_store st sc) as Hs.
  destruct (stats st sc) as [s seg]. injection H as <- _. now simpl in Hs.
Qed.

(** ** The claims *)

(** C1. In a reachable store, a redirect for a shortcode whose record
    exists and has not expired adds one to the record's [clicks],
    appends one click event (the instant of the append, the caller's
    referrer and address) at the end of the shortcode's ledger, and
    redirects to the record's url. Hence [N] such calls in a row add
    [N] to the counter and append their [N] events in call order; on a
    record just created, the counter is [N] and the ledger holds
    exactly these [N] events. The same holds with any other requests
    served in between: the counter grows by the number of redirects of
    the shortcode that were served, the ledger by their events. *)
Theorem resolve_counts_every_click (st : Store) (sc : string) (e : UrlEntry) :
  reachable st -> st_urls st !! sc = Some e ->
  exists events,
    st_clicks st !! sc = Some events /\ clicks e = length events /\
    (forall header reqIp nowCheck nowClick,
       live e nowCheck ->
       serve st (Resolve sc header reqIp nowCheck nowClick)
       = Some (mkStore
                 (<[sc := mkEntry (url e) (createdAt e) (expiry e) (S (clicks e))]>
                    (st_urls st))
                 (<[sc := events ++ [mkClick nowClick (referrerOf header) reqIp]]>
                    (st_clicks st)),
               Redirect (url e))) /\
    (forall calls,
       Forall (fun c => live e (c_nowCheck c)) calls ->
       let st' := fst (resolveAll st sc calls) in
       st_urls st' !! sc
         = Some (mkEntry (url e) (createdAt e) (expiry e) (clicks e + length calls)) /\
       st_clicks st' !! sc = Some (events ++ map clickOf calls) /\
       snd (resolveAll st sc calls) = map (fun _ => Redirect (url e)) calls /\
       (clicks e = 0 ->
        st_clicks st' !! sc = Some (map clickOf calls) /\
        length (map clickOf calls) = length calls /\
        exists e', st_urls st' !! sc = Some e' /\ clicks e' = length calls)) /\
    (forall reqs st' rs,
       serveAll st reqs = Some (st', rs) ->
       let served := clicksServed sc reqs rs in
       st_urls st' !! sc
         = Some (mkEntry (url e) (createdAt e) (expiry e) (clicks e + length served)) /\
       st_clicks st' !! sc = Some (events ++ served)).
Proof.
  intros Hr Hu. destruct (reachable_consistent st Hr sc e Hu) as (events & Hc & Hlen).
  exists events. split; [assumption|]. split; [assumption|]. split; [|split].
  - intros header reqIp nowCheck nowClick Hlive. unfold serve, handle.
    rewrite (resolve_live _ _ _ _ _ _ _ _ Hu Hc Hlive). reflexivity.
  - intros calls Hall.
    destruct (resolveAll_live calls st sc e events Hu Hc Hall) as (H1 & H2 & H3).
    cbn zeta. repeat split; try assumption.
    + rewrite H2. destruct events; [reflexivity|]. simpl in Hlen. lia.
    + apply length_map.
    + eexists. split; [exact H1|]. simpl. lia.
  - intros reqs st' rs Hrun. cbn zeta.
    eapply served_clicks_accumulate; eassumption.
Qed.

(** C2. In every reachable store, each record's [clicks] is the length
    of its shortcode's ledger, and each handler keeps it so: a creation
    leaves the store alone or adds one fresh shortcode with a zero
    counter and an empty ledger, a redirect moves both together, and
    the statistics change nothing. *)
Theorem clickCount_is_ledger_length (st : Store) :
  reachable st ->
  consistent st /\
  (forall body w fuel st' seg,
     create st body w fuel = Some (st', seg) ->
     consistent st' /\
     (st' = st \/
      exists code e, st_urls st !! code = None /\ clicks e = 0 /\
        st_urls st' !! code = Some e /\ st_clicks st' !! code = Some [])) /\
  (forall sc header reqIp nowCheck nowClick,
     consistent (fst (resolve st sc header reqIp nowCheck nowClick))) /\
  (forall sc, fst (stats st sc) = st).
Proof.
  intros Hr. pose proof (reachable_consistent st Hr) as Hst.
  split; [assumption|]. split; [|split].
  - intros body w fuel st' seg Hc. split; [eapply create_consistent; eassumption|].
    destruct (create_store _ _ _ _ _ _ Hc) as [->|(code & e & _ & Hn & He & ->)];
      [now left|].
    right. exists code, e. cbn [st_urls st_clicks].
    now rewrite !lookup_insert_eq.
  - intros. now apply resolve_consistent.
  - apply stats_store.
Qed.

(** C3. A redirect for a shortcode whose record exists and whose expiry
    lies before the clock reading is answered Expired, and the store is
    the one it started from: the record is still there, its counter
    and its ledger untouched. *)
Theorem resolve_expired_is_refused (st : Store) (sc : string) (e : UrlEntry)
    (x : Z) (header : option string) (reqIp : string) (nowCheck nowClick : Z) :
  st_urls st !! sc = Some e -> expiry e = ValidDate x -> (x < nowCheck)%Z ->
  serve st (Resolve sc header reqIp nowCheck nowClick) = Some (st, Expired).
Proof.
  intros Hu He Hlt. unfold serve, handle.
  rewrite (resolve_expired st sc e); [reflexivity | assumption |].
  rewrite (live_valid e x nowCheck He). lia.
Qed.

(** C10. For a record of a reachable store whose expiry is the instant
    [x], a redirect is answered Expired if and only if the clock reads
    strictly more than [x]; when the clock reads exactly [x] the
    redirect is served, the counter goes up by one and a click event
    is appended. *)
Theorem expiry_boundary_is_strict (st : Store) (sc : string) (e : UrlEntry)
    (x : Z) (header : option string) (reqIp : string) (nowCheck nowClick : Z) :
  reachable st -> st_urls st !! sc = Some e -> expiry e = ValidDate x ->
  exists st' r events,
    serve st (Resolve sc header reqIp nowCheck nowClick) = Some (st', r) /\
    (r = Expired <-> (x < nowCheck)%Z) /\
    st_clicks st !! sc = Some events /\
    (nowCheck = x ->
     r = Redirect (url e) /\
     st_urls st' !! sc
       = Some (mkEntry (url e) (createdAt e) (expiry e) (S (clicks e))) /\
     st_clicks st' !! sc
       = Some (events ++ [mkClick nowClick (referrerOf header) reqIp])).
Proof.
  intros Hr Hu He.
  destruct (reachable_consistent st Hr sc e Hu) as (events & Hc & _).
  destruct (Z.lt_ge_cases x nowCheck) as [Hlt|Hge].
  - exists st, Expired, events. split; [|split; [|split]].
    + unfold serve, handle.
      rewrite (resolve_expired st sc e); [reflexivity | assumption |].
      rewrite (live_valid e x nowCheck He). lia.
    + split; auto.
    + assumption.
    + intros ->. lia.
  - assert (Hlive : live e nowCheck) by (apply (live_valid _ _ _ He); lia).
    eexists _, _, events. split; [|split; [|split]].
    + unfold serve, handle.
      rewrite (resolve_live _ _ _ _ _ _ _ _ Hu Hc Hlive). reflexivity.
    + simpl. split; [discriminate | lia].
    + assumption.
    + intros _. cbn [st_urls st_clicks]. rewrite !lookup_insert_eq. auto.
Qed.


(** C6, amended. For a creation whose url passes its check and whose
    request carries a non-empty shortcode: if the shortcode does not
    match [^[A-Za-z0-9]{4,}$] the call is answered InvalidShortcode;
    if it matches and already keys a record the call is answered
    ShortcodeConflict; either way the store is left as it was, so no
    other code is put in its place. An empty shortcode is handled as an
    absent one. *)
Theorem custom_shortcode_rejections (st : Store) (body : CreateBody)
    (w : CreateWorld) (fuel : nat) :
  truthy (textOf (b_url body)) = true -> isUri (stringOf (textOf (b_url body))) = true ->
  (forall code,
     b_shortcode body = Some code -> code <> ""%string ->
     (~ matchesPattern code ->
      serve st (Create body w fuel) = Some (st, InvalidShortcode)) /\
     (matchesPattern code -> is_Some (st_urls st !! code) ->
      serve st (Create body w fuel) = Some (st, ShortcodeConflict))) /\
  (b_shortcode body = Some ""%string ->
   create st body w fuel
   = create st (mkBody (b_url body) (b_validity body) None) w fuel).
Proof.
  intros Hu Hi. split.
  - intros code Hs Hne.
    assert (Ht : truthy (b_shortcode body) = true).
    { rewrite Hs. simpl. apply negb_true_iff. now apply String.eqb_neq. }
    unfold serve, handle. rewrite (create_accepted _ _ _ _ Hu Hi).
    unfold register, chooseShortcode.
    rewrite Ht, Hs. change (stringOf (Some code)) with code. split.
    + intros Hm. destruct (isValidShortcode code) eqn:Hv.
      * exfalso. apply Hm. now apply isValidShortcode_spec.
      * reflexivity.
    + intros Hm [e He]. apply isValidShortcode_spec in Hm. rewrite Hm.
      rewrite (present_own _ _ _ He). reflexivity.
  - intros Hs. unfold create, register, chooseShortcode. rewrite Hs. reflexivity.
Qed.

(** C7, amended. For a creation that passes the url and shortcode
    checks with shortcode [code]: a validity that is present and is
    not a positive integer is answered InvalidValidity and nothing is
    stored; otherwise, with [n] the validity (30 when absent), the
    record stored under [code] has [createdAt] the clock reading taken
    for it and the expiry [getExpiryDate] computes from its own
    reading, taken just before. When the offset of the host's time
    zone does not change on the way, that expiry is the reading of
    [getExpiryDate] plus [n] minutes, and the call succeeds with it
    when it is a representable date. So the expiry is [createdAt] plus
    [n] minutes when the two readings agree, and it lies after
    [createdAt] when less than [n] minutes separate them. *)
Theorem validity_and_expiry (st : Store) (body : CreateBody)
    (w : CreateWorld) (fuel : nat) (code : string) :
  truthy (textOf (b_url body)) = true -> isUri (stringOf (textOf (b_url body))) = true ->
  chooseShortcode st body (random w) fuel = Chosen code ->
  (b_validity body <> JsUndefined ->
   (forall n, ~ positiveInteger (b_validity body) n) ->
   serve st (Create body w fuel) = Some (st, InvalidValidity)) /\
  (forall n,
     (b_validity body = JsUndefined /\ n = 30%Z) \/
     positiveInteger (b_validity body) n ->
     exists st' seg e,
       create st body w fuel = Some (st', seg) /\
       st_urls st' !! code = Some e /\
       url e = stringOf (textOf (b_url body)) /\ clicks e = 0 /\
       createdAt e = createdClock w /\
       expiry e = getExpiryDate zone (expiryClock w) n /\
       (JsDate.steady zone (expiryClock w) (n * JsDate.msPerMinute) ->
        let ms := (expiryClock w + n * JsDate.msPerMinute)%Z in
        expiry e = JsDate.TimeClip ms /\
        ((Z.abs ms <= JsDate.maxTime)%Z ->
         expiry e = ValidDate ms /\
         respond seg st' = CreatedAs code ms /\
         (createdClock w = expiryClock w ->
          ms = (createdAt e + n * JsDate.msPerMinute)%Z) /\
         ((createdClock w - expiryClock w < n * JsDate.msPerMinute)%Z ->
          (createdAt e < ms)%Z)))).
Proof.
  intros Hu Hi Hch. unfold serve, handle. rewrite (create_accepted _ _ _ _ Hu Hi).
  unfold register. rewrite Hch. split.
  - intros Hdef Hbad.
    destruct (chooseDuration (b_validity body)) as [early|n] eqn:Hd.
    + apply chooseDuration_early in Hd. now subst.
    + exfalso. apply chooseDuration_ok in Hd.
      destruct Hd as [[? _]|Hp]; [contradiction | exact (Hbad n Hp)].
  - intros n Hn. apply chooseDuration_ok in Hn. rewrite Hn. cbn zeta.
    eexists _, _, _. split; [reflexivity|]. cbn [st_urls].
    rewrite lookup_insert_eq. split; [reflexivity|].
    cbn [url clicks createdAt expiry respond].
    do 4 (split; [reflexivity|]).
    intros Hsteady. rewrite (getExpiryDate_shift _ _ Hsteady).
    split; [reflexivity|].
    intros Hfits. apply Z.leb_le in Hfits. unfold JsDate.TimeClip. rewrite Hfits.
    do 2 (split; [reflexivity|]). split; intros Hclock; lia.
Qed.

(** Nothing the creation handler does after its [await] reads the store. *)
Lemma create_respond_const (st st' : Store) (body : CreateBody) (w : CreateWorld)
    (fuel : nat) (seg : Segment) :
  create st body w fuel = Some (st', seg) ->
  forall s s', respond seg s = respond seg s'.
Proof.
  destruct (create_url_cases st body w fuel) as [(_ & _ & ->)|[->|(_ & _ & _ & ->)]];
    [|intros [= <- <-]; reflexivity..].
  unfold register.
  destruct (chooseShortcode _ _ _ _) as [early|code|] eqn:Hch; [| |discriminate].
  - intros [= <- <-]. unfold chooseShortcode in Hch.
    destruct (truthy _).
    + destruct (negb _); [injection Hch as <-; reflexivity|].
      destruct (present _ _); [injection Hch as <-; reflexivity | discriminate].
    + destruct (generateShortcode _ _ _); discriminate.
  - destruct (chooseDuration _) as [early|minutes] eqn:Hd; intros [= <- <-].
    + apply chooseDuration_early in Hd. subst early. reflexivity.
    + reflexivity.
Qed.

Lemma create_conflict (st : Store) (body : CreateBody) (w : CreateWorld)
    (fuel : nat) (code : string) :
  truthy (textOf (b_url body)) = true -> isUri (stringOf (textOf (b_url body))) = true ->
  b_shortcode body = Some code -> truthy (Some code) = true ->
  isValidShortcode code = true -> is_Some (st_urls st !! code) ->
  create st body w fuel
  = Some (st, log "warn" "shortcode already exists" ShortcodeConflict).
Proof.
  intros Hu Hi Hs Ht Hv [e He]. rewrite (create_accepted _ _ _ _ Hu Hi).
  unfold register, chooseShortcode.
  rewrite Hs, Ht. change (stringOf (Some code)) with code.
  rewrite Hv, (present_own _ _ _ He). reflexivity.
Qed.

(** What a successful creation with a custom shortcode tells. *)
Lemma create_custom_created (st st' : Store) (body : CreateBody) (w : CreateWorld)
    (fuel : nat) (code : string) (ms : Z) :
  b_shortcode body = Some code -> code <> ""%string ->
  serve st (Create body w fuel) = Some (st', CreatedAs code ms) ->
  truthy (textOf (b_url body)) = true /\ isUri (stringOf (textOf (b_url body))) = true /\
  truthy (Some code) = true /\ isValidShortcode code = true /\
  is_Some (st_urls st' !! code) /\
  exists seg, create st body w fuel = Some (st', seg) /\
              forall s, respond seg s = CreatedAs code ms.
Proof.
  intros Hs Hne. unfold serve, handle.
  destruct (create st body w fuel) as [[s seg]|] eqn:Hc; [|discriminate].
  intros [= <- Hr].
  assert (Ht : truthy (Some code) = true).
  { simpl. apply negb_true_iff. now apply String.eqb_neq. }
  destruct (create_created _ _ _ _ _ _ _ _ _ Hc Hr)
    as (Hu & Hi & code' & minutes & Hch & _ & _ & _ & ->).
  destruct (chooseShortcode_fresh _ _ _ _ _ Hch) as [Hv _].
  apply chooseShortcode_chosen in Hch.
  destruct Hch as [(_ & Hs' & _)|(Hf & _)]; [|rewrite Hs in Hf; congruence].
  assert (code' = code) by congruence. subst code'.
  repeat split; try assumption.
  - cbn [st_urls]. rewrite lookup_insert_eq. eauto.
  - exists seg. split; [reflexivity|]. intros s0.
    rewrite <- Hr. eapply create_respond_const; eassumption.
Qed.

(** C9. Node runs the handlers one segment at a time, and on the paths
    below everything a handler reads or writes in the store happens in
    its first segment, before its first [await]. So however the
    segments of two requests in flight interleave: of two creations
    with the same custom shortcode that would each succeed alone, one
    is answered with the created link and the other with
    ShortcodeConflict; and two redirects of the same live shortcode
    are both served, each appends its one click event, and the counter
    ends two higher. *)
Theorem concurrent_requests_serialize (st : Store) :
  (forall s1 s2 b1 b2 w1 w2 f1 f2 code ms1 ms2,
     b_shortcode b1 = Some code -> b_shortcode b2 = Some code ->
     code <> ""%string ->
     serve st (Create b1 w1 f1) = Some (s1, CreatedAs code ms1) ->
     serve st (Create b2 w2 f2) = Some (s2, CreatedAs code ms2) ->
     forall schedule a1 a2,
       let final := run (mkServer st [Queued (Create b1 w1 f1);
                                      Queued (Create b2 w2 f2)]) schedule in
       tasks final = [Answered a1; Answered a2] ->
       (a1 = CreatedAs code ms1 /\ a2 = ShortcodeConflict /\ store final = s1) \/
       (a1 = ShortcodeConflict /\ a2 = CreatedAs code ms2 /\ store final = s2)) /\
  (forall sc e events c1 c2,
     st_urls st !! sc = Some e -> st_clicks st !! sc = Some events ->
     live e (c_nowCheck c1) -> live e (c_nowCheck c2) ->
     forall schedule a1 a2,
       let request c :=
         Resolve sc (c_header c) (c_ip c) (c_nowCheck c) (c_nowClick c) in
       let final := run (mkServer st [Queued (request c1); Queued (request c2)])
                        schedule in
       tasks final = [Answered a1; Answered a2] ->
       a1 = Redirect (url e) /\ a2 = Redirect (url e) /\
       st_urls (store final) !! sc
         = Some (mkEntry (url e) (createdAt e) (expiry e) (clicks e + 2)) /\
       (st_clicks (store final) !! sc = Some (events ++ [clickOf c1; clickOf c2]) \/
        st_clicks (store final) !! sc = Some (events ++ [clickOf c2; clickOf c1]))).
Proof.
  split.
  - intros s1 s2 b1 b2 w1 w2 f1 f2 code ms1 ms2.
    intros Hb1 Hb2 Hne H1 H2 schedule a1 a2 final Hdone.
    destruct (create_custom_created _ _ _ _ _ _ _ Hb1 Hne H1)
      as (Hu1 & Hi1 & Ht & Hv & Hin1 & seg1 & Hc1 & Hr1).
    destruct (create_custom_created _ _ _ _ _ _ _ Hb2 Hne H2)
      as (Hu2 & Hi2 & _ & _ & Hin2 & seg2 & Hc2 & Hr2).
    pose proof (create_conflict s1 b2 w2 f2 code Hu2 Hi2 Hb2 Ht Hv Hin1) as H12.
    pose proof (create_conflict s2 b1 w1 f1 code Hu1 Hi1 Hb1 Ht Hv Hin2) as H21.
    destruct (run_serial st s1 s2 s1 s2 (Create b1 w1 f1) (Create b2 w2 f2)
                seg1 seg2 _ _ Hc1 Hc2 H12 H21 schedule a1 a2 Hdone)
      as [(Hst & [x ->] & [y ->])|(Hst & [x ->] & [y ->])].
    + left. now rewrite Hr1.
    + right. now rewrite Hr2.
  - intros sc e events c1 c2.
    intros Hu Hc Hl1 Hl2 schedule a1 a2 request final Hdone.
    assert (Hstep : forall s ev ev' c,
              st_urls s !! sc = Some ev -> st_clicks s !! sc = Some ev' ->
              expiry ev = expiry e -> url ev = url e -> live e (c_nowCheck c) ->
              handle s (request c)
              = Some (mkStore (<[sc := bump ev]> (st_urls s))
                              (<[sc := ev' ++ [clickOf c]]> (st_clicks s)),
                      log "info" ("redirect for shortcode: " +:+ sc)
                          (Redirect (url e)))).
    { intros s ev ev' c Hs1 Hs2 Hexp Hurl Hl. unfold request, handle.
      rewrite (resolve_live s sc ev ev'); try assumption.
      + now rewrite Hurl.
      + unfold live in *. now rewrite Hexp. }
    pose proof (Hstep st e events c1 Hu Hc eq_refl eq_refl Hl1) as H1.
    pose proof (Hstep st e events c2 Hu Hc eq_refl eq_refl Hl2) as H2.
    match type of H1 with _ = Some (?s, _) =>
      pose proof (Hstep s (bump e) (events ++ [clickOf c1]) c2) as H12 end.
    match type of H2 with _ = Some (?s, _) =>
      pose proof (Hstep s (bump e) (events ++ [clickOf c2]) c1) as H21 end.
    cbn [st_urls st_clicks] in H12, H21. rewrite !lookup_insert_eq in H12, H21.
    specialize (H12 eq_refl eq_refl eq_refl eq_refl Hl2).
    specialize (H21 eq_refl eq_refl eq_refl eq_refl Hl1).
    destruct (run_serial _ _ _ _ _ _ _ _ _ _ _ H1 H2 H12 H21 schedule a1 a2 Hdone)
      as [(Hst & [x ->] & [y ->])|(Hst & [x ->] & [y ->])];
      fold final in Hst; rewrite Hst; cbn [st_urls st_clicks respond log];
      rewrite !lookup_insert_eq, <- !app_assoc; cbn [app bump url createdAt expiry clicks];
      (split; [reflexivity|]); (split; [reflexivity|]);
      (split; [unfold bump; cbn [url createdAt expiry clicks]; do 2 f_equal; lia|]);
      [left|right]; reflexivity.
Qed.

(** C4, at the input where the handler departs from it. On a server
    that holds no record at all, the statistics of the shortcode
    "constructor" are not refused with NotFound: [urls['constructor']]
    is the function every object inherits, the guard [!entry] lets it
    through, and [allClicks.map] throws a TypeError. *)
Theorem stats_constructor_throws :
  st_urls emptyStore !! "constructor"%string = None /\
  serve emptyStore (Stats "constructor") = Some (emptyStore, Throws TypeError) /\
  Throws TypeError <> NotFound.
Proof. split; [reflexivity|]. split; [reflexivity | discriminate]. Qed.

End Facts.

(** The part of C8 that holds, whatever [validUrl.isUri] is: a creation
    whose url is missing or falsy, or is a string that [isUri] refuses,
    or is another value for which [isUri] returns undefined, is answered
    InvalidUrl and the store is the one the call started from, so no
    record is inserted. In particular the url "not-a-url", which has no
    scheme, is refused, whatever else the request carries. *)
Lemma refused_url_rejected :
  (forall isUri isUriOther zone st body w fuel,
     urlTruthy (b_url body) = false \/
     (exists s, b_url body = UrlString s /\ isUri s = false) \/
     (textOf (b_url body) = None /\ isUriOther (b_url body) = ReturnsUndefined) ->
     serve isUri isUriOther zone st (Create body w fuel) = Some (st, InvalidUrl)) /\
  isUriModel "not-a-url" = false /\
  (forall isUriOther zone st validity shortcode w fuel,
     serve isUriModel isUriOther zone st
       (Create (mkBody (UrlString "not-a-url"%string) validity shortcode) w fuel)
     = Some (st, InvalidUrl)).
Proof.
  assert (H : forall isUri isUriOther zone st body w fuel,
             urlTruthy (b_url body) = false \/
             (exists s, b_url body = UrlString s /\ isUri s = false) \/
             (textOf (b_url body) = None /\
              isUriOther (b_url body) = ReturnsUndefined) ->
             serve isUri isUriOther zone st (Create body w fuel)
             = Some (st, InvalidUrl)).
  { intros isUri isUriOther zone st body w fuel Hbad. unfold serve, handle.
    now rewrite (create_invalid_url isUri isUriOther zone st body w fuel Hbad). }
  split; [exact H|]. split; [reflexivity|].
  intros. apply H. right. left. eexists. split; reflexivity.
Qed.

(** Whatever the two parts of [validUrl.isUri] are: a creation whose
    url is truthy and not a string, and on which [isUri] raises, is not
    answered at all, and the store is the one the call started from. *)
Lemma raising_url_unanswered (isUri : string -> bool)
    (isUriOther : UrlValue -> OnNonString) (zone : JsDate.Zone)
    (st : Store) (body : CreateBody) (w : CreateWorld) (fuel : nat) :
  urlTruthy (b_url body) = true -> textOf (b_url body) = None ->
  isUriOther (b_url body) = RaisesTypeError ->
  serve isUri isUriOther zone st (Create body w fuel) = Some (st, Throws TypeError).
Proof.
  intros Ht Hn Ho. unfold serve, handle.
  now rewrite (create_url_raises isUri isUriOther zone st body w fuel Ht Hn Ho).
Qed.

(** C8, at the input where the handler departs from it. The body
    [{"url": 123}] carries a url that does not parse as a URL. The
    number is truthy, so the test of line 40 hands it to
    [validUrl.isUri], which raises a TypeError on a number: the
    handler's promise rejects, and the call is not answered InvalidUrl,
    whatever the store and the rest of the request are. No record is
    inserted. *)
Theorem numeric_url_throws :
  urlTruthy (UrlNumber 123) = true /\
  (forall isUri zone st validity shortcode w fuel,
     serve isUri isUriOtherModel zone st
       (Create (mkBody (UrlNumber 123) validity shortcode) w fuel)
     = Some (st, Throws TypeError)) /\
  Throws TypeError <> InvalidUrl.
Proof.
  split; [reflexivity|]. split; [|discriminate].
  intros. apply raising_url_unanswered; reflexivity.
Qed.

(** ** The claims at sample inputs *)

Lemma sampleStore_reachable : reachable isUriModel isUriOtherModel utc sampleStore.
Proof.
  eapply (reachable_handle isUriModel isUriOtherModel utc emptyStore (Create sampleBody sampleWorld 0)).
  - apply reachable_start.
  - reflexivity.
Qed.

(** The scenario of the specification: a one-minute link is created,
    followed at once, followed again after it has expired, and its
    statistics are read. *)
Example scenario_create_resolve_expire_stats :
  serveAll isUriModel isUriOtherModel utc emptyStore
    [ Create sampleBody sampleWorld 0;
      Resolve "abc123" None "203.0.113.7" 2000 2001;
      Resolve "abc123" None "203.0.113.7" 70000 70001;
      Stats "abc123" ]
  = Some (mkStore {[ "abc123"%string := mkEntry sampleUrl 1001 (ValidDate 61000) 1 ]}
                  {[ "abc123"%string := [mkClick 2001 None "203.0.113.7"] ]},
          [ CreatedAs "abc123" 61000;
            Redirect sampleUrl;
            Expired;
            Json 200 (StatsBody "abc123"
                        (Some (mkEntry sampleUrl 1001 (ValidDate 61000) 1))
                        [mkClick 2001 None "203.0.113.7"]) ]).
Proof. reflexivity. Qed.

(** The url checks at sample requests: no url, a url without a scheme,
    and urls that are not strings. *)
Example url_checks_sampled :
  serve isUriModel isUriOtherModel utc sampleStore
    (Create (mkBody UrlUndefined JsUndefined None) sampleWorld 1)
  = Some (sampleStore, InvalidUrl) /\
  serve isUriModel isUriOtherModel utc sampleStore
    (Create (mkBody (UrlString "not-a-url"%string) (JsNumber 5) None) sampleWorld 1)
  = Some (sampleStore, InvalidUrl) /\
  serve isUriModel isUriOtherModel utc sampleStore
    (Create (mkBody (UrlNumber 0) JsUndefined None) sampleWorld 1)
  = Some (sampleStore, InvalidUrl) /\
  serve isUriModel isUriOtherModel utc sampleStore
    (Create (mkBody (UrlBoolean true) JsUndefined None) sampleWorld 1)
  = Some (sampleStore, Throws TypeError).
Proof. repeat split. Qed.

Lemma resolve_counts_every_click_witness :
  reachable isUriModel isUriOtherModel utc sampleStore /\
  st_urls sampleStore !! "abc123"%string = Some sampleEntry /\
  live sampleEntry 2000 /\
  serve isUriModel isUriOtherModel utc sampleStore
    (Resolve "abc123" (Some "https://news.example/"%string) "203.0.113.7" 2000 2001)
  = Some (mkStore
            (<["abc123"%string := mkEntry sampleUrl 1001 (ValidDate 61000) 1]>
               (st_urls sampleStore))
            (<["abc123"%string :=
                 [mkClick 2001 (Some "https://news.example/"%string) "203.0.113.7"]]>
               (st_clicks sampleStore)),
          Redirect sampleUrl).
Proof.
  split; [exact sampleStore_reachable|]. split; [reflexivity|].
  split; [reflexivity|].
  destruct (resolve_counts_every_click isUriModel isUriOtherModel utc sampleStore "abc123" sampleEntry
              sampleStore_reachable eq_refl) as (events & Hev & _ & Hone & _).
  injection Hev as <-.
  exact (Hone (Some "https://news.example/"%string) "203.0.113.7"%string
              2000%Z 2001%Z eq_refl).
Defined.

Lemma clickCount_is_ledger_length_witness :
  reachable isUriModel isUriOtherModel utc sampleStore /\ consistent sampleStore.
Proof.
  split; [exact sampleStore_reachable|].
  exact (proj1 (clickCount_is_ledger_length isUriModel isUriOtherModel utc sampleStore
                  sampleStore_reachable)).
Defined.

Lemma resolve_expired_is_refused_witness :
  st_urls sampleStore !! "abc123"%string = Some sampleEntry /\
  expiry sampleEntry = ValidDate 61000 /\ (61000 < 61001)%Z /\
  serve isUriModel isUriOtherModel utc sampleStore (Resolve "abc123" None "203.0.113.7" 61001 61002)
  = Some (sampleStore, Expired).
Proof.
  split; [reflexivity|]. split; [reflexivity|]. split; [reflexivity|].
  exact (resolve_expired_is_refused isUriModel isUriOtherModel utc sampleStore "abc123" sampleEntry
           61000 None "203.0.113.7" 61001 61002 eq_refl eq_refl eq_refl).
Defined.

Lemma expiry_boundary_is_strict_witness :
  reachable isUriModel isUriOtherModel utc sampleStore /\
  st_urls sampleStore !! "abc123"%string = Some sampleEntry /\
  expiry sampleEntry = ValidDate 61000 /\
  exists st',
    serve isUriModel isUriOtherModel utc sampleStore (Resolve "abc123" None "203.0.113.7" 61000 61000)
    = Some (st', Redirect sampleUrl) /\
    st_urls st' !! "abc123"%string = Some (mkEntry sampleUrl 1001 (ValidDate 61000) 1) /\
    st_clicks st' !! "abc123"%string = Some [mkClick 61000 None "203.0.113.7"].
Proof.
  split; [exact sampleStore_reachable|]. split; [reflexivity|]. split; [reflexivity|].
  destruct (expiry_boundary_is_strict isUriModel isUriOtherModel utc sampleStore "abc123" sampleEntry
              61000 None "203.0.113.7" 61000 61000
              sampleStore_reachable eq_refl eq_refl)
    as (st' & r & events & Hserve & _ & Hev & Hedge).
  injection Hev as <-. destruct (Hedge eq_refl) as (-> & Hu & Hc).
  exists st'. split; [exact Hserve|]. split; [exact Hu | exact Hc].
Defined.


Lemma custom_shortcode_rejections_witness :
  (truthy (Some sampleUrl) = true /\ isUriModel sampleUrl = true /\
   "abc"%string <> ""%string /\ ~ matchesPattern "abc" /\
   serve isUriModel isUriOtherModel utc sampleStore
     (Create (mkBody (UrlString sampleUrl) JsUndefined (Some "abc"%string)) sampleWorld 1)
   = Some (sampleStore, InvalidShortcode)) /\
  (matchesPattern "abc123" /\ is_Some (st_urls sampleStore !! "abc123"%string) /\
   serve isUriModel isUriOtherModel utc sampleStore (Create rivalBody sampleWorld 1)
   = Some (sampleStore, ShortcodeConflict)).
Proof.
  assert (Hshort : ~ matchesPattern "abc").
  { intros [Hlen _]. simpl in Hlen. lia. }
  assert (Hgood : matchesPattern "abc123").
  { apply isValidShortcode_spec. reflexivity. }
  assert (Hkeyed : is_Some (st_urls sampleStore !! "abc123"%string)).
  { exists sampleEntry. reflexivity. }
  split.
  - split; [reflexivity|]. split; [reflexivity|]. split; [discriminate|].
    split; [exact Hshort|].
    exact (proj1 (proj1 (custom_shortcode_rejections isUriModel isUriOtherModel utc sampleStore
                           (mkBody (UrlString sampleUrl) JsUndefined (Some "abc"%string))
                           sampleWorld 1 eq_refl eq_refl)
                    "abc"%string eq_refl ltac:(discriminate)) Hshort).
  - split; [exact Hgood|]. split; [exact Hkeyed|].
    exact (proj2 (proj1 (custom_shortcode_rejections isUriModel isUriOtherModel utc sampleStore
                           rivalBody sampleWorld 1 eq_refl eq_refl)
                    "abc123"%string eq_refl ltac:(discriminate)) Hgood Hkeyed).
Defined.

Lemma validity_and_expiry_witness :
  truthy (textOf (b_url sampleBody)) = true /\
  isUriModel (stringOf (textOf (b_url sampleBody))) = true /\
  chooseShortcode emptyStore sampleBody (random sampleWorld) 0 = Chosen "abc123" /\
  positiveInteger (b_validity sampleBody) 1 /\
  JsDate.steady utc (expiryClock sampleWorld) (1 * JsDate.msPerMinute) /\
  exists st' seg e,
    create isUriModel isUriOtherModel utc emptyStore sampleBody sampleWorld 0 = Some (st', seg) /\
    st_urls st' !! "abc123"%string = Some e /\
    createdAt e = 1001%Z /\ expiry e = ValidDate 61000 /\
    respond seg st' = CreatedAs "abc123" 61000.
Proof.
  assert (Hone : positiveInteger (b_validity sampleBody) 1).
  { split; [reflexivity | lia]. }
  assert (Hsteady : JsDate.steady utc (expiryClock sampleWorld)
                      (1 * JsDate.msPerMinute)).
  { reflexivity. }
  split; [reflexivity|]. split; [reflexivity|]. split; [reflexivity|].
  split; [exact Hone|]. split; [exact Hsteady|].
  destruct (proj2 (validity_and_expiry isUriModel isUriOtherModel utc emptyStore sampleBody sampleWorld
                     0 "abc123" eq_refl eq_refl eq_refl) 1%Z (or_intror Hone))
    as (st' & seg & e & Hc & Hu & _ & _ & Hcreated & _ & Hvalid).
  assert (Hfits : (Z.abs (expiryClock sampleWorld + 1 * JsDate.msPerMinute)
                   <= JsDate.maxTime)%Z).
  { vm_compute. discriminate. }
  destruct (Hvalid Hsteady) as (_ & Hrepresentable).
  destruct (Hrepresentable Hfits) as (Hexp & Hresp & _).
  exists st', seg, e. repeat split; assumption.
Defined.

Lemma concurrent_requests_serialize_witness :
  (serve isUriModel isUriOtherModel utc emptyStore (Create sampleBody sampleWorld 0)
   = Some (sampleStore, CreatedAs "abc123" 61000) /\
   serve isUriModel isUriOtherModel utc emptyStore (Create rivalBody sampleWorld 0)
   = Some (rivalStore, CreatedAs "abc123" 121000) /\
   let final := run isUriModel isUriOtherModel utc
                  (mkServer emptyStore [Queued (Create sampleBody sampleWorld 0);
                                        Queued (Create rivalBody sampleWorld 0)])
                  [1; 0; 0; 1] in
   tasks final = [Answered ShortcodeConflict; Answered (CreatedAs "abc123" 121000)] /\
   store final = rivalStore) /\
  (live sampleEntry (c_nowCheck (sampleCall 2000)) /\
   live sampleEntry (c_nowCheck (sampleCall 2001)) /\
   let request c := Resolve "abc123" (c_header c) (c_ip c) (c_nowCheck c) (c_nowClick c) in
   let final := run isUriModel isUriOtherModel utc
                  (mkServer sampleStore [Queued (request (sampleCall 2000));
                                         Queued (request (sampleCall 2001))])
                  [0; 1; 1; 0] in
   tasks final = [Answered (Redirect sampleUrl); Answered (Redirect sampleUrl)] /\
   st_urls (store final) !! "abc123"%string
   = Some (mkEntry sampleUrl 1001 (ValidDate 61000) 2)).
Proof.
  split.
  - split; [reflexivity|]. split; [reflexivity|]. cbv zeta.
    assert (Hdone : tasks (run isUriModel isUriOtherModel utc
                (mkServer emptyStore [Queued (Create sampleBody sampleWorld 0);
                                      Queued (Create rivalBody sampleWorld 0)])
                [1; 0; 0; 1])
              = [Answered ShortcodeConflict; Answered (CreatedAs "abc123" 121000)]).
    { reflexivity. }
    split; [exact Hdone|].
    destruct (proj1 (concurrent_requests_serialize isUriModel isUriOtherModel utc emptyStore)
                sampleStore rivalStore sampleBody rivalBody sampleWorld sampleWorld
                0 0 "abc123"%string 61000%Z 121000%Z eq_refl eq_refl
                ltac:(discriminate) eq_refl eq_refl [1; 0; 0; 1] _ _ Hdone)
      as [(Himpossible & _)|(_ & _ & Hstore)].
    + discriminate Himpossible.
    + exact Hstore.
  - split; [reflexivity|]. split; [reflexivity|]. cbv zeta.
    assert (Hdone : tasks (run isUriModel isUriOtherModel utc
                (mkServer sampleStore
                   [Queued (Resolve "abc123" (c_header (sampleCall 2000))
                              (c_ip (sampleCall 2000)) (c_nowCheck (sampleCall 2000))
                              (c_nowClick (sampleCall 2000)));
                    Queued (Resolve "abc123" (c_header (sampleCall 2001))
                              (c_ip (sampleCall 2001)) (c_nowCheck (sampleCall 2001))
                              (c_nowClick (sampleCall 2001)))])
                [0; 1; 1; 0])
              = [Answered (Redirect sampleUrl); Answered (Redirect sampleUrl)]).
    { reflexivity. }
    split; [exact Hdone|].
    exact (proj1 (proj2 (proj2
             (proj2 (concurrent_requests_serialize isUriModel isUriOtherModel utc sampleStore)
                "abc123"%string sampleEntry [] (sampleCall 2000) (sampleCall 2001)
                eq_refl eq_refl eq_refl eq_refl [0; 1; 1; 0] _ _ Hdone)))).
Defined.

(** ** Where the claims as written fail *)

(** C6 as written fails twice. A three-letter shortcode sent with the
    url "not-a-url" is answered InvalidUrl: the url is checked first. And
    the empty shortcode, which does not match the pattern, is taken for
    an absent one: the call succeeds with a generated code. *)
Lemma custom_shortcode_claim_fails :
  (isValidShortcode "abc" = false /\
   serve isUriModel isUriOtherModel utc emptyStore
     (Create (mkBody (UrlString "not-a-url"%string) JsUndefined (Some "abc"%string))
             sampleWorld 1)
   = Some (emptyStore, InvalidUrl) /\
   InvalidUrl <> InvalidShortcode) /\
  (isValidShortcode "" = false /\
   serve isUriModel isUriOtherModel utc emptyStore
     (Create (mkBody (UrlString sampleUrl) JsUndefined (Some ""%string)) sampleWorld 1)
   = Some (generatedStore, CreatedAs "abcdef" 1801000) /\
   CreatedAs "abcdef" 1801000 <> InvalidShortcode).
Proof.
  split; (split; [reflexivity|]); (split; [reflexivity | discriminate]).
Qed.

(** C7 as written fails three times. A validity of 0 sent with the url
    "not-a-url" is answered InvalidUrl, not InvalidValidity. When the
    clock ticks between its two readings (1000 in [getExpiryDate],
    1001 for [createdAt]), a one-minute creation succeeds with expiry
    61000, which is not [createdAt] plus one minute. And on a host whose
    clocks went back ten minutes ago, a thirty-minute creation succeeds
    with an expiry twenty minutes before the clocks went back, which is
    thirty minutes before [createdAt]: [setMinutes] lands on a local
    time that occurs twice and is read as the earlier instant. *)
Lemma expiry_claim_fails :
  (serve isUriModel isUriOtherModel utc emptyStore
     (Create (mkBody (UrlString "not-a-url"%string) (JsNumber 0) None) sampleWorld 1)
   = Some (emptyStore, InvalidUrl) /\
   InvalidUrl <> InvalidValidity) /\
  (serve isUriModel isUriOtherModel utc emptyStore (Create sampleBody sampleWorld 0)
   = Some (sampleStore, CreatedAs "abc123" 61000) /\
   st_urls sampleStore !! "abc123"%string = Some sampleEntry /\
   expiry sampleEntry = ValidDate 61000 /\
   ValidDate 61000 <> ValidDate (createdAt sampleEntry + 1 * JsDate.msPerMinute)) /\
  (serve isUriModel isUriOtherModel centralEurope emptyStore (Create halfHourBody autumnWorld 0)
   = Some (autumnStore, CreatedAs "abc123" (clocksBack - 1200000)) /\
   createdClock autumnWorld = (clocksBack + 600000)%Z /\
   (clocksBack - 1200000 < createdClock autumnWorld)%Z).
Proof.
  split; [split; [reflexivity | discriminate]|]. split.
  - split; [reflexivity|]. split; [reflexivity|]. split; [reflexivity | discriminate].
  - split; [reflexivity|]. split; reflexivity.
Qed.
